(** * ePub Genre Finder: the analysis service [epubProcessor]

    A shallow embedding of [services/epubProcessor.ts] (with the types of
    [types.ts] and the tag table of [services/tags.ts]) and the properties of
    its extraction and scoring pipeline, followed by the components that
    use the service, [components/App.tsx] and [components/FileUpload.tsx],
    as far as they hold state and compute what is displayed.

    Conventions of the embedding.
    - A JavaScript string is the list of its UTF-16 code units ([jsstring]).
    - A JavaScript number that holds a count or a score is an integer of [Z].
    - An object used as [Record<string, T>] is the list of its own properties
      in creation order; [Object_entries] enumerates it the way ECMAScript
      does (array-index keys first, ascending, then the other keys in creation
      order).  Keys are taken to be ordinary property names: the members that
      every object inherits from [Object.prototype] are not part of the
      declared type and are not modelled.
    - What the browser supplies ([DOMParser], [URL], the Unicode case table,
      the zip reader) is a variable of the section that uses it; the
      string and regular-expression built-ins the service relies on are
      written out from ECMAScript. *)

From Stdlib Require Import List NArith ZArith Bool Lia String Ascii Arith.
From Stdlib Require Import Sorted Permutation.
Import ListNotations.

(** ** Strings *)

Definition code_unit := N.
Definition jsstring := list code_unit.

(** An ASCII literal of the source as a [jsstring]. *)
Definition js (s : string) : jsstring :=
  List.map N_of_ascii (list_ascii_of_string s).

Definition ch (a : ascii) : code_unit := N_of_ascii a.

Fixpoint str_eqb (a b : jsstring) : bool :=
  match a, b with
  | [], [] => true
  | x :: a', y :: b' => N.eqb x y && str_eqb a' b'
  | _, _ => false
  end.

Definition isEmpty (s : jsstring) : bool :=
  match s with
  | [] => true
  | _ :: _ => false
  end.

(** Truthiness of a value of type [string | null]: [null] and the empty string
    are falsy. *)
Definition truthy (v : option jsstring) : bool :=
  match v with
  | Some s => negb (isEmpty s)
  | None => false
  end.

Fixpoint isPrefixOf (p s : jsstring) : bool :=
  match p, s with
  | [], _ => true
  | x :: p', y :: s' => N.eqb x y && isPrefixOf p' s'
  | _ :: _, [] => false
  end.

(** [String.prototype.includes]: [searchString] occurs in [s] at some index;
    the comparison is by code unit, hence case-sensitive. *)
Fixpoint String_includes (s searchString : jsstring) : bool :=
  isPrefixOf searchString s ||
  match s with
  | [] => false
  | _ :: s' => String_includes s' searchString
  end.

(** WhiteSpace and LineTerminator of ECMAScript, the code units that
    [String.prototype.trim] removes. *)
Definition isWhiteSpace (c : code_unit) : bool :=
  ((9 <=? c) && (c <=? 13) || (c =? 32) || (c =? 160) || (c =? 5760)
   || (8192 <=? c) && (c <=? 8202) || (c =? 8232) || (c =? 8233)
   || (c =? 8239) || (c =? 8287) || (c =? 12288) || (c =? 65279))%N.

Fixpoint trimStart (s : jsstring) : jsstring :=
  match s with
  | [] => []
  | c :: s' => if isWhiteSpace c then trimStart s' else s
  end.

Definition String_trim (s : jsstring) : jsstring :=
  rev (trimStart (rev (trimStart s))).

(** [s.substring(1)]. *)
Definition substring1 (s : jsstring) : jsstring := tl s.

Definition NUMBER_SIGN : code_unit := Eval cbv in ch "#".
Definition PERCENT : code_unit := Eval cbv in ch "%".
Definition SPACE : code_unit := Eval cbv in ch " ".

(** [s.split('#')[0]]: the part of [s] before the first number sign. *)
Fixpoint beforeHash (s : jsstring) : jsstring :=
  match s with
  | [] => []
  | c :: s' => if N.eqb c NUMBER_SIGN then [] else c :: beforeHash s'
  end.

(** ** [decodeURIComponent] *)

Definition hexValue (c : code_unit) : option N :=
  (if (48 <=? c) && (c <=? 57) then Some (c - 48)
   else if (65 <=? c) && (c <=? 70) then Some (c - 55)
   else if (97 <=? c) && (c <=? 102) then Some (c - 87)
   else None)%N.

Definition hexByte (h l : code_unit) : option N :=
  match hexValue h, hexValue l with
  | Some a, Some b => Some (16 * a + b)%N
  | _, _ => None
  end.

(** The number of leading 1 bits of a byte, as far as [Decode] distinguishes
    them: 0, 1, 2, 3, 4, or more than 4 (reported as 5). *)
Definition leadingOnes (B : N) : nat :=
  if (B <? 128)%N then 0
  else if (B <? 192)%N then 1
  else if (B <? 224)%N then 2
  else if (B <? 240)%N then 3
  else if (B <? 248)%N then 4
  else 5.

Definition isContinuation (B : N) : bool := ((128 <=? B) && (B <? 192))%N.

(** The code point that [Octets] encodes in UTF-8, when they are a valid
    encoding: continuation bytes of the form 10xxxxxx, no overlong form, no
    surrogate, nothing above U+10FFFF. *)
Definition utf8CodePoint (Octets : list N) : option N :=
  match Octets with
  | [b0; b1] =>
      let V := ((b0 - 192) * 64 + (b1 - 128))%N in
      if isContinuation b1 && (128 <=? V)%N then Some V else None
  | [b0; b1; b2] =>
      let V := ((b0 - 224) * 4096 + (b1 - 128) * 64 + (b2 - 128))%N in
      if isContinuation b1 && isContinuation b2 && (2048 <=? V)%N
         && negb ((55296 <=? V) && (V <=? 57343))%N
      then Some V else None
  | [b0; b1; b2; b3] =>
      let V := ((b0 - 240) * 262144 + (b1 - 128) * 4096 + (b2 - 128) * 64
                + (b3 - 128))%N in
      if isContinuation b1 && isContinuation b2 && isContinuation b3
         && (65536 <=? V)%N && (V <=? 1114111)%N
      then Some V else None
  | _ => None
  end.

Definition UTF16EncodeCodePoint (V : N) : jsstring :=
  (if V <=? 65535 then [V]
   else [55296 + (V - 65536) / 1024; 56320 + (V - 65536) mod 1024])%N.

(** Decode of ECMAScript with an empty reserved set.  [pending] is the number
    of continuation octets still to read for the current sequence and
    [Octets] the octets read so far; [None] is the URIError. *)
Fixpoint Decode (pending : nat) (Octets : list N) (s : jsstring)
  : option jsstring :=
  match pending with
  | S p =>
      match s with
      | c :: h :: l :: rest =>
          if N.eqb c PERCENT then
            match hexByte h l with
            | Some B =>
                match p with
                | O =>
                    match utf8CodePoint (Octets ++ [B]) with
                    | Some V =>
                        option_map (app (UTF16EncodeCodePoint V))
                          (Decode 0 [] rest)
                    | None => None
                    end
                | S _ => Decode p (Octets ++ [B]) rest
                end
            | None => None
            end
          else None
      | _ => None
      end
  | O =>
      match s with
      | [] => Some []
      | c :: rest =>
          if N.eqb c PERCENT then
            match rest with
            | h :: l :: rest' =>
                match hexByte h l with
                | Some B =>
                    match leadingOnes B with
                    | 0 => option_map (cons B) (Decode 0 [] rest')
                    | 1 => None
                    | 2 => Decode 1 [B] rest'
                    | 3 => Decode 2 [B] rest'
                    | 4 => Decode 3 [B] rest'
                    | _ => None
                    end
                | None => None
                end
            | _ => None
            end
          else option_map (cons c) (Decode 0 [] rest)
      end
  end%nat.

Definition decodeURIComponent (s : jsstring) : option jsstring := Decode 0 [] s.

(** ** Regular expressions: the fragment [escapeRegex] produces *)

Definition BACKSLASH : code_unit := Eval cbv in ch "\".
Definition ASTERISK : code_unit := Eval cbv in ch "*".
Definition LOWER_B : code_unit := Eval cbv in ch "b".
Definition LOWER_W : code_unit := Eval cbv in ch "w".

(** The character class of the first [replace] of [escapeRegex]:
    [/[.+?^${}()|[\]\\]/]. *)
Definition escapedClass : jsstring := Eval cbv in js ".+?^${}()|[]\".

Definition inClass (c : code_unit) (cls : jsstring) : bool :=
  existsb (N.eqb c) cls.

(** [str.replace(/[.+?^${}()|[\]\\]/g, '\\$&')]: every character of the class
    is replaced by a backslash followed by itself. *)
Definition replaceSpecial (str : jsstring) : jsstring :=
  flat_map (fun c => if inClass c escapedClass then [BACKSLASH; c] else [c])
    str.

(** [str.replace(/\*/g, '\\w')]. *)
Definition replaceAsterisk (str : jsstring) : jsstring :=
  flat_map (fun c => if N.eqb c ASTERISK then [BACKSLASH; LOWER_W] else [c])
    str.

Definition escapeRegex (str : jsstring) : jsstring :=
  replaceAsterisk (replaceSpecial str).

(** ECMAScript's SyntaxCharacter: [^ $ \ . * + ? ( ) [ ] { } |]. *)
Definition syntaxCharacters : jsstring := Eval cbv in js "^$\.*+?()[]{}|".

Definition isSyntaxCharacter (c : code_unit) : bool :=
  inClass c syntaxCharacters.

(** The terms of a pattern without alternation, groups or quantifiers. *)
Inductive Term : Type :=
| AssertWordBoundary          (* \b *)
| PatternChar (c : code_unit) (* a literal, plain or identity-escaped *)
| ClassWord.                  (* \w *)

(** [new RegExp(pattern, 'gi')] on that fragment.  [None] stands for a pattern
    outside the fragment (a bare syntax character, another escape): the
    constructor would have to interpret it as syntax or throw. *)
Fixpoint RegExp (pattern : jsstring) : option (list Term) :=
  match pattern with
  | [] => Some []
  | c :: rest =>
      if N.eqb c BACKSLASH then
        match rest with
        | [] => None
        | e :: rest' =>
            if N.eqb e LOWER_B then
              option_map (cons AssertWordBoundary) (RegExp rest')
            else if N.eqb e LOWER_W then
              option_map (cons ClassWord) (RegExp rest')
            else if isSyntaxCharacter e then
              option_map (cons (PatternChar e)) (RegExp rest')
            else None
        end
      else if isSyntaxCharacter c then None
      else option_map (cons (PatternChar c)) (RegExp rest)
  end.

(** ECMAScript's WordCharacters for a pattern without the [u] flag. *)
Definition WordCharacters : jsstring :=
  Eval cbv in
    js "abcdefghijklmnopqrstuvwxyzABCDEFGHIJKLMNOPQRSTUVWXYZ0123456789_".

Definition isWordChar (c : code_unit) : bool := inClass c WordCharacters.

(** IsWordChar(e) of the [\b] assertion: false outside the input. *)
Definition IsWordChar (o : option code_unit) : bool :=
  match o with
  | Some c => isWordChar c
  | None => false
  end.

Definition asciiUpper (c : code_unit) : code_unit :=
  if (97 <=? c)%N && (c <=? 122)%N then (c - 32)%N else c.

Section Matching.

(** [String.prototype.toUpperCase] applied to a one-character string: the
    Unicode case table of the engine. *)
Variable toUpperCase : jsstring -> jsstring.

(** Canonicalize(ch) for [ignoreCase] without [unicode]. *)
Definition Canonicalize (c : code_unit) : code_unit :=
  match toUpperCase [c] with
  | [cu] => if (128 <=? c)%N && (cu <? 128)%N then c else cu
  | _ => c
  end.

(** One term at a position of the input: [prev] is the code unit before the
    position, [rest] the input from the position on.  The result is the
    number of code units consumed. *)
Definition matchTerm (t : Term) (prev : option code_unit) (rest : jsstring)
  : option nat :=
  match t with
  | AssertWordBoundary =>
      if xorb (IsWordChar prev) (IsWordChar (hd_error rest)) then Some 0%nat
      else None
  | PatternChar c =>
      match rest with
      | x :: _ =>
          if N.eqb (Canonicalize x) (Canonicalize c) then Some 1%nat else None
      | [] => None
      end
  | ClassWord =>
      match rest with
      | x :: _ =>
          if existsb (fun m => N.eqb (Canonicalize m) (Canonicalize x))
               WordCharacters
          then Some 1%nat else None
      | [] => None
      end
  end.

(** The position reached after consuming [k] code units. *)
Fixpoint advance (k : nat) (prev : option code_unit) (rest : jsstring)
  : option code_unit * jsstring :=
  match k, rest with
  | S k', x :: rest' => advance k' (Some x) rest'
  | _, _ => (prev, rest)
  end.

(** The terms in sequence; the result is the length of the match. *)
Fixpoint matchTerms (ts : list Term) (prev : option code_unit) (rest : jsstring)
  : option nat :=
  match ts with
  | [] => Some 0%nat
  | t :: ts' =>
      match matchTerm t prev rest with
      | Some k =>
          let '(prev', rest') := advance k prev rest in
          option_map (Nat.add k) (matchTerms ts' prev' rest')
      | None => None
      end
  end.

(** [str.match(re)] for a global [re], as the number of matches found.  The
    position between [prev] and [rest] is the index the search has reached;
    [skip] is the number of code units from there to [lastIndex], those still
    covered by the previous match.  After a match of length [n] the search
    resumes [n] code units later, one later when the match is empty; after a
    failure, one later; it stops past the end of the input. *)
Fixpoint matchCount (ts : list Term) (prev : option code_unit) (rest : jsstring)
    (skip : nat) : nat :=
  match skip with
  | S k =>
      match rest with
      | [] => 0
      | x :: rest' => matchCount ts (Some x) rest' k
      end
  | O =>
      match matchTerms ts prev rest with
      | Some n =>
          S (match rest with
             | [] => 0
             | x :: rest' => matchCount ts (Some x) rest' (Nat.pred n)
             end)
      | None =>
          match rest with
          | [] => 0
          | x :: rest' => matchCount ts (Some x) rest' 0
          end
      end
  end%nat.

(** The count of a keyword: the pattern is a backslash, the letter b and
    [escapeRegex(keyword)], the flags are [gi], and the count is the length of
    [fullTextContent.match(searchRegex)], 0 when that is [null].
    [escapeRegex] never leaves the fragment ([RegExp_keyword_pattern] below),
    so the [None] branch is never taken. *)
Definition keywordCount (fullTextContent keyword : jsstring) : Z :=
  let pattern := [BACKSLASH; LOWER_B] ++ escapeRegex keyword in
  match RegExp pattern with
  | Some searchRegex => Z.of_nat (matchCount searchRegex None fullTextContent 0)
  | None => 0
  end.

End Matching.

(** ** Objects used as records, and arrays *)

(** The own properties of an object, in creation order. *)
Definition Record (T : Type) : Type := list (jsstring * T).

(** [o[k]]: [None] is [undefined]. *)
Fixpoint obj_get {T : Type} (o : Record T) (k : jsstring) : option T :=
  match o with
  | [] => None
  | (k', v) :: o' => if str_eqb k' k then Some v else obj_get o' k
  end.

(** [o[k] = v]: an existing property keeps its place, a new one is created
    last. *)
Fixpoint obj_set {T : Type} (o : Record T) (k : jsstring) (v : T) : Record T :=
  match o with
  | [] => [(k, v)]
  | (k', v') :: o' =>
      if str_eqb k' k then (k', v) :: o' else (k', v') :: obj_set o' k v
  end.

Definition isDigit (c : code_unit) : bool := ((48 <=? c) && (c <=? 57))%N.

Definition decimalValue (s : jsstring) : N :=
  fold_left (fun acc c => (10 * acc + (c - 48))%N) s 0%N.

(** The array index a property key denotes, if any: the key is the canonical
    decimal form of an integer below 2^32 - 1. *)
Definition arrayIndex (k : jsstring) : option N :=
  match k with
  | [] => None
  | c :: rest =>
      if forallb isDigit k && (negb (N.eqb c 48) || isEmpty rest)
         && (decimalValue k <? 4294967295)%N
      then Some (decimalValue k) else None
  end.

Definition isArrayIndex (k : jsstring) : bool :=
  match arrayIndex k with
  | Some _ => true
  | None => false
  end.

Definition indexOf (k : jsstring) : N :=
  match arrayIndex k with
  | Some i => i
  | None => 0%N
  end.

Fixpoint insertByIndex {T : Type} (p : jsstring * T) (l : Record T)
  : Record T :=
  match l with
  | [] => [p]
  | q :: l' =>
      if (indexOf (fst p) <=? indexOf (fst q))%N then p :: l
      else q :: insertByIndex p l'
  end.

Definition ascendingIndex {T : Type} (l : Record T) : Record T :=
  fold_right insertByIndex [] l.

(** [Object.entries(o)], in the order of OrdinaryOwnPropertyKeys: the
    array-index keys in ascending numeric order, then the other keys in
    creation order. *)
Definition Object_entries {T : Type} (o : Record T) : list (jsstring * T) :=
  ascendingIndex (filter (fun p => isArrayIndex (fst p)) o)
  ++ filter (fun p => negb (isArrayIndex (fst p))) o.

(** [Array.prototype.sort(comparefn)].  ECMAScript requires the sort to be
    stable, which fixes its result for a consistent [comparefn]; it is
    written here as an insertion sort that puts an element after the
    elements it does not precede. *)
Fixpoint sortInsert {A : Type} (comparefn : A -> A -> Z) (x : A) (l : list A)
  : list A :=
  match l with
  | [] => [x]
  | y :: l' =>
      if (comparefn x y <=? 0)%Z then x :: l else y :: sortInsert comparefn x l'
  end.

Definition Array_sort {A : Type} (comparefn : A -> A -> Z) (l : list A)
  : list A :=
  fold_right (sortInsert comparefn) [] l.

(** A [Set<string>] in insertion order. *)
Definition Set_has (s : list jsstring) (v : jsstring) : bool :=
  existsb (str_eqb v) s.

Definition Set_add (s : list jsstring) (v : jsstring) : list jsstring :=
  if Set_has s v then s else s ++ [v].

(** ** Documents *)

#[local] Set Warnings "-register-all".

(** An element of a parsed document: its local name, its attributes and its
    child elements, in document order. *)
Inductive Element : Type :=
| Elem (localName : jsstring) (attributes : list (jsstring * jsstring))
       (children : list Element).

Definition localName (e : Element) : jsstring :=
  match e with Elem n _ _ => n end.

Definition attributes (e : Element) : list (jsstring * jsstring) :=
  match e with Elem _ a _ => a end.

Definition children (e : Element) : list Element :=
  match e with Elem _ _ c => c end.

(** [e.getAttribute(name)]: [None] is [null]. *)
Definition getAttribute (e : Element) (name : jsstring) : option jsstring :=
  obj_get (attributes e) name.

(** [root.querySelectorAll(name)] for a type selector: the elements with that
    local name, in document order, [root] included. *)
Fixpoint selectType (name : jsstring) (e : Element) : list Element :=
  match e with
  | Elem n _ cs =>
      (if str_eqb n name then [e] else []) ++ flat_map (selectType name) cs
  end.

(** [root.querySelectorAll('ancestor name')]: the elements called [name] that
    have an ancestor called [ancestor]; [inside] tells whether such an
    ancestor has been passed. *)
Fixpoint selectDescendant (ancestor name : jsstring) (inside : bool)
    (e : Element) : list Element :=
  match e with
  | Elem n _ cs =>
      (if inside && str_eqb n name then [e] else [])
      ++ flat_map
           (selectDescendant ancestor name (inside || str_eqb n ancestor)) cs
  end.

(** A parsed document, given by its document element. *)
Definition Document : Type := Element.

Definition querySelector (doc : Document) (name : jsstring) : option Element :=
  hd_error (selectType name doc).

(** ** The archive *)

(** A loaded zip: its file entries, name and content as text. *)
Definition JSZip : Type := list (jsstring * jsstring).

(** [zip.file(name)] followed by [.async('string')]: [None] when there is no
    such entry. *)
Definition zip_file (zip : JSZip) (name : jsstring) : option jsstring :=
  obj_get zip name.

(** ** types.ts *)

Record GenreResult : Type := mkGenreResult {
  genre : jsstring;
  score : Z;
  hits : Record Z
}.

(** [TagResult] has the shape of [GenreResult], with [tag] for [genre]. *)
Definition TagResult : Type := GenreResult.
Definition tag (r : TagResult) : jsstring := genre r.

Record KeywordHit : Type := mkKeywordHit {
  keyword : jsstring;
  count : Z
}.

Record AnalysisResult : Type := mkAnalysisResult {
  genres : list GenreResult;
  tags : list TagResult;
  allHits : list KeywordHit
}.

(** What a run can throw: the four [new Error(message)] of the service, and the
    errors of the built-ins it calls ([URIError] from [decodeURIComponent],
    [TypeError] from [new URL]). *)
Inductive Exception : Type :=
| Error (message : jsstring)
| URIError
| TypeError.

Inductive Completion (A : Type) : Type :=
| Normal (value : A)
| Throw (e : Exception).

Arguments Normal {A} value.
Arguments Throw {A} e.

(** ** services/tags.ts *)

Definition TAG_KEYWORDS : Record (list jsstring) :=
  [ (js "Magic System",
    [js "mana"; js "spell"; js "rune"; js "sorcery"; js "incantation";
     js "magic"]);
   (js "Dungeon Crawl",
    [js "dungeon"; js "labyrinth"; js "floor"; js "boss"; js "trap"; js "loot";
     js "minotaur"]);
   (js "Kingdom Building",
    [js "kingdom"; js "territory"; js "manage"; js "resource"; js "building";
     js "governance"]);
   (js "Political Intrigue",
    [js "conspiracy"; js "throne"; js "court"; js "noble"; js "betrayal";
     js "schem*"]);
   (js "Mythical Creatures",
    [js "dragon"; js "elf"; js "dwarf"; js "orc"; js "goblin"; js "troll";
     js "griffin"]);
   (js "Reincarnation / Isekai",
    [js "reincarnat*"; js "another world"; js "summoned"; js "isekai";
     js "transmigrat*"]);
   (js "System / Interface",
    [js "system"; js "interface"; js "status"; js "window"; js "skill";
     js "level up"]);
   (js "Space Opera",
    [js "fleet"; js "empire"; js "galaxy"; js "starship"; js "federation";
     js "armada"]);
   (js "Cyberpunk",
    [js "cybernetic"; js "augment*"; js "megacorp"; js "dystopia"; js "hacker";
     js "netrunner"]);
   (js "Post-Apocalyptic",
    [js "apocalypse"; js "wasteland"; js "mutant"; js "scavenge"; js "fallout";
     js "ruins"]);
   (js "First Contact",
    [js "alien"; js "contact"; js "first"; js "extraterrestrial";
     js "unidentified"; js "probe"]);
   (js "Mecha",
    [js "mech"; js "mecha"; js "giant robot"; js "pilot"; js "hangar";
     js "battlesuit"]);
   (js "Cultivation",
    [js "cultivat*"; js "qi"; js "dao"; js "sect"; js "elixir";
     js "tribulation"; js "core"]);
   (js "Martial Arts",
    [js "martial"; js "fist"; js "kung fu"; js "technique"; js "dojo";
     js "master"]);
   (js "Slow Burn Romance",
    [js "slow burn"; js "tension"; js "unspoken"; js "pining"; js "longing"]);
   (js "Love Triangle",
    [js "triangle"; js "jealous"; js "rivalry"; js "torn between";
     js "two loves"]);
   (js "Enemies to Lovers",
    [js "enemies to lovers"; js "rival"; js "hate"; js "bicker";
     js "antagonize"]);
   (js "Forbidden Love",
    [js "forbidden"; js "secret love"; js "star-crossed"; js "illicit affair";
     js "taboo"]);
   (js "Fake Relationship",
    [js "fake relationship"; js "pretend"; js "contract"; js "arrangement";
     js "false love"]);
   (js "Satire / Parody",
    [js "satire"; js "parody"; js "mock"; js "lampoon"; js "irony"]);
   (js "Dark Comedy",
    [js "dark humor"; js "black comedy"; js "gallows humor"; js "morbid";
     js "macabre"]);
   (js "Situational Comedy",
    [js "sitcom"; js "awkward"; js "misunderstanding"; js "shenanigans";
     js "farce"]);
   (js "Slapstick",
    [js "slapstick"; js "physical comedy"; js "pratfall"; js "clumsy";
     js "pie in the face"]);
   (js "Academy / School Life",
    [js "academy"; js "school"; js "student"; js "teacher"; js "classmate";
     js "exam"]);
   (js "Warfare",
    [js "war"; js "battle"; js "army"; js "soldier"; js "strategy"; js "siege";
     js "military"]);
   (js "Coming of Age",
    [js "grow"; js "mature"; js "teenager"; js "adult"; js "coming of age"]);
   (js "Revenge Plot",
    [js "revenge"; js "avenge"; js "grudge"; js "betray*"; js "retribution"]);
   (js "Survival",
    [js "surviv*"; js "shelter"; js "forage"; js "hunt"; js "wilderness"]);
   (js "Mind Games",
    [js "psychological"; js "mind game"; js "outwit"; js "manipulat*";
     js "intellect"]);
   (js "Weak to Strong",
    [js "weak"; js "strong"; js "power up"; js "train*"; js "growth";
     js "overcome"]);
   (js "Anti-Hero",
    [js "anti-hero"; js "morally grey"; js "vigilante"; js "ruthless";
     js "unscrupulous"]);
   (js "Harem",
    [js "harem"; js "polygamy"; js "concubine"; js "many loves";
     js "multiple partners"]);
   (js "Erotica / Smut",
    [js "erotic*"; js "smut"; js "explicit"; js "sex scene*"; js "passion*";
     js "sensual"; js "intimate"]);
   (js "Graphic Violence / Gore",
    [js "gore"; js "gory"; js "brutal"; js "decapitat*"; js "mutilat*";
     js "blood"; js "viscera"; js "graphic violence"]);
   (js "Mature / Adult Themes",
    [js "mature"; js "adult"; js "dark themes"; js "explicit content";
     js "trigger warning"])].

(** ** services/epubProcessor.ts *)

Definition CONTAINER_NOT_FOUND : Exception :=
  Error (js "META-INF/container.xml not found in epub.").

Definition ROOTFILE_NOT_FOUND : Exception :=
  Error (js "Could not find rootfile path in container.xml.").

Definition OPF_NOT_FOUND (opfPath : jsstring) : Exception :=
  Error (js "OPF file not found at path: " ++ opfPath).

Definition NO_TEXT_CONTENT : Exception :=
  Error (js "Could not extract any text content from the ePub spine files.").

(** [manifestItems] after the callback of [forEach] has run on [item]. *)
Definition collectItem (manifestItems : Record jsstring) (item : Element)
  : Record jsstring :=
  let id := getAttribute item (js "id") in
  let href := getAttribute item (js "href") in
  let mediaType := getAttribute item (js "media-type") in
  match id, href with
  | Some id', Some href' =>
      if truthy id && truthy href
         && (match mediaType with
             | Some m => String_includes m (js "html")
             | None => false
             end
             || match mediaType with
                | Some m => String_includes m (js "xhtml")
                | None => false
                end)
      then obj_set manifestItems id' href'
      else manifestItems
  | _, _ => manifestItems
  end.

(** The map of manifest item ids to hrefs built from the OPF document. *)
Definition manifestItemsOf (opfDoc : Document) : Record jsstring :=
  fold_left collectItem
    (selectDescendant (js "manifest") (js "item") false opfDoc) [].

(** [spineRefs]: the [idref] attributes of the spine, in document order. *)
Definition spineRefsOf (opfDoc : Document) : list (option jsstring) :=
  List.map (fun item => getAttribute item (js "idref"))
    (selectDescendant (js "spine") (js "itemref") false opfDoc).

Section Service.

(** The Unicode case table behind the [i] flag. *)
Variable toUpperCase : jsstring -> jsstring.

(** [new DOMParser().parseFromString(s, 'application/xml')].  The parser does
    not throw: for text that is not well-formed it returns a document that
    holds a [parsererror] element. *)
Variable parseFromString : jsstring -> Document.

(** [parser.parseFromString(htmlString, 'text/html').body.textContent], and
    [None] where that is [null] or the parser throws. *)
Variable bodyTextContent : jsstring -> option jsstring.

(** [new URL(chapterHref, new URL(opfPath, 'file:///')).pathname], as
    [URL_pathname chapterHref opfPath]; [None] when a [URL] constructor
    throws. *)
Variable URL_pathname : jsstring -> jsstring -> option jsstring.

(** The genre table of [services/genres.ts]. *)
Variable GENRE_KEYWORDS : Record (list jsstring).

Definition getHtmlTextContent (htmlString : jsstring) : jsstring :=
  match bodyTextContent htmlString with
  | Some text => text
  | None => []
  end.

(** Step 1: the path of the OPF file, from [META-INF/container.xml]. *)
Definition opfPathOf (zip : JSZip) : Completion jsstring :=
  match zip_file zip (js "META-INF/container.xml") with
  | None => Throw CONTAINER_NOT_FOUND
  | Some containerXmlStr =>
      let containerDoc := parseFromString containerXmlStr in
      match querySelector containerDoc (js "rootfile") with
      | None => Throw ROOTFILE_NOT_FOUND
      | Some rootfile =>
          match getAttribute rootfile (js "full-path") with
          | Some opfPath =>
              if isEmpty opfPath then Throw ROOTFILE_NOT_FOUND
              else Normal opfPath
          | None => Throw ROOTFILE_NOT_FOUND
          end
      end
  end.

(** The archive path of a chapter: the href resolved against the OPF path,
    without its leading slash and fragment, percent-decoded. *)
Definition chapterFilePathOf (opfPath chapterHref : jsstring)
  : Completion jsstring :=
  match URL_pathname chapterHref opfPath with
  | None => Throw TypeError
  | Some pathname =>
      match decodeURIComponent (beforeHash (substring1 pathname)) with
      | Some chapterFilePath => Normal chapterFilePath
      | None => Throw URIError
      end
  end.

(** Step 3, the loop over [spineRefs], with its two variables
    [fullTextContent] and [seenPaths]. *)
Fixpoint spineLoop (zip : JSZip) (manifestItems : Record jsstring)
    (opfPath : jsstring) (spineRefs : list (option jsstring))
    (fullTextContent : jsstring) (seenPaths : list jsstring)
  : Completion jsstring :=
  match spineRefs with
  | [] => Normal fullTextContent
  | idref :: more =>
      let continue := spineLoop zip manifestItems opfPath more in
      if negb (truthy idref) then continue fullTextContent seenPaths
      else
        let chapterHref :=
          match idref with
          | Some id => obj_get manifestItems id
          | None => None
          end in
        match chapterHref with
        | None => continue fullTextContent seenPaths
        | Some href =>
            if isEmpty href then continue fullTextContent seenPaths
            else
              match chapterFilePathOf opfPath href with
              | Throw e => Throw e
              | Normal chapterFilePath =>
                  if Set_has seenPaths chapterFilePath
                  then continue fullTextContent seenPaths
                  else
                    match zip_file zip chapterFilePath with
                    | Some chapterContent =>
                        continue
                          (fullTextContent
                           ++ getHtmlTextContent chapterContent ++ [SPACE])
                          (Set_add seenPaths chapterFilePath)
                    | None =>
                        continue fullTextContent
                          (Set_add seenPaths chapterFilePath)
                    end
              end
        end
  end.

(** Step 3 with its final check: the corpus, or the error for an empty one. *)
Definition fullTextContentOf (zip : JSZip) (opfPath : jsstring)
    (opfDoc : Document) : Completion jsstring :=
  match spineLoop zip (manifestItemsOf opfDoc) opfPath (spineRefsOf opfDoc)
          [] [] with
  | Throw e => Throw e
  | Normal fullTextContent =>
      if isEmpty (String_trim fullTextContent) then Throw NO_TEXT_CONTENT
      else Normal fullTextContent
  end.

(** The inner loop of steps 4 and 5: [hits] and [totalScore] after one
    keyword. *)
Definition scoreKeyword (fullTextContent : jsstring) (state : Record Z * Z)
    (keyword : jsstring) : Record Z * Z :=
  let '(hits, totalScore) := state in
  let count := keywordCount toUpperCase fullTextContent keyword in
  if (0 <? count)%Z then (obj_set hits keyword count, (totalScore + count)%Z)
  else (hits, totalScore).

Definition scoreKeywords (fullTextContent : jsstring) (keywords : list jsstring)
  : Record Z * Z :=
  fold_left (scoreKeyword fullTextContent) keywords ([], 0%Z).

(** The outer loop of steps 4 and 5: the results after one category. *)
Definition scoreCategory (fullTextContent : jsstring)
    (results : list GenreResult) (entry : jsstring * list jsstring)
  : list GenreResult :=
  let '(genre, keywords) := entry in
  let '(hits, totalScore) := scoreKeywords fullTextContent keywords in
  if (0 <? totalScore)%Z then results ++ [mkGenreResult genre totalScore hits]
  else results.

(** Steps 4 and 5 for one table: [genreResults] or [tagResults] before they
    are sorted. *)
Definition scoreTable (fullTextContent : jsstring)
    (table : Record (list jsstring)) : list GenreResult :=
  fold_left (scoreCategory fullTextContent) (Object_entries table) [].

(** [allHitsMap[keyword] || 0]. *)
Definition orZero (v : option Z) : Z :=
  match v with
  | Some n => if (n =? 0)%Z then 0%Z else n
  | None => 0%Z
  end.

Definition addHit (allHitsMap : Record Z) (entry : jsstring * Z) : Record Z :=
  let '(keyword, count) := entry in
  obj_set allHitsMap keyword (orZero (obj_get allHitsMap keyword) + count)%Z.

Definition addHits (allHitsMap : Record Z) (result : GenreResult) : Record Z :=
  fold_left addHit (Object_entries (hits result)) allHitsMap.

(** Step 6: [allHitsMap] over [[...genreResults, ...tagResults]]. *)
Definition allHitsMapOf (results : list GenreResult) : Record Z :=
  fold_left addHits results [].

Definition byCountDescending (a b : KeywordHit) : Z := (count b - count a)%Z.
Definition byScoreDescending (a b : GenreResult) : Z := (score b - score a)%Z.

Definition allHitsOf (allHitsMap : Record Z) : list KeywordHit :=
  Array_sort byCountDescending
    (List.map (fun '(keyword, count) => mkKeywordHit keyword count)
       (Object_entries allHitsMap)).

(** Steps 4 to 7 on the corpus. *)
Definition analyzeText (fullTextContent : jsstring) : AnalysisResult :=
  let genreResults := scoreTable fullTextContent GENRE_KEYWORDS in
  let tagResults := scoreTable fullTextContent TAG_KEYWORDS in
  let allHitsMap := allHitsMapOf (genreResults ++ tagResults) in
  mkAnalysisResult
    (Array_sort byScoreDescending genreResults)
    (Array_sort byScoreDescending tagResults)
    (allHitsOf allHitsMap).

(** [analyzeEpub], from the loaded archive on. *)
Definition analyzeEpub (zip : JSZip) : Completion AnalysisResult :=
  match opfPathOf zip with
  | Throw e => Throw e
  | Normal opfPath =>
      match zip_file zip opfPath with
      | None => Throw (OPF_NOT_FOUND opfPath)
      | Some opfXmlStr =>
          let opfDoc := parseFromString opfXmlStr in
          match fullTextContentOf zip opfPath opfDoc with
          | Throw e => Throw e
          | Normal fullTextContent => Normal (analyzeText fullTextContent)
          end
      end
  end.

End Service.

(** ** types.ts: the state of a run *)

Inductive ProcessingState : Type :=
| IDLE
| PROCESSING
| SUCCESS
| ERROR.

Definition ProcessingState_eqb (a b : ProcessingState) : bool :=
  match a, b with
  | IDLE, IDLE | PROCESSING, PROCESSING | SUCCESS, SUCCESS | ERROR, ERROR =>
      true
  | _, _ => false
  end.

(** ** Files *)

(** A [File] of the browser: its name, its MIME type and its bytes. *)
Record File : Type := mkFile {
  name : jsstring;
  type : jsstring;
  bytes : list N
}.

(** ** components/FileUpload.tsx *)

Module FileUpload.

(** What a handler of the component does to the outside: it calls
    [onFileSelect], or it raises an alert box. *)
Inductive Effect : Type :=
| onFileSelect (file : File)
| alert (message : jsstring).

(** [handleFileChange], on the [files] of the input element: an empty list
    stands for a missing or empty [FileList]. *)
Definition handleFileChange (files : list File) : list Effect :=
  match files with
  | file :: _ => [onFileSelect file]
  | [] => []
  end.

(** [handleDrop], on the [files] of the drag event, as far as the outside
    sees it (the handler also resets the border of the drop zone). *)
Definition handleDrop (files : list File) : list Effect :=
  match files with
  | file :: _ =>
      if str_eqb (type file) (js "application/epub+zip")
      then [onFileSelect file]
      else [alert (js "Please drop an .epub file.")]
  | [] => []
  end.

End FileUpload.

(** ** components/App.tsx *)

Module App.

(** The state variables of the component. *)
Record State : Type := mkState {
  file : option File;
  processingState : ProcessingState;
  statusMessage : jsstring;
  genreResults : list GenreResult;
  tagResults : list TagResult;
  allHits : list KeywordHit
}.

(** The initial values of [useState]. *)
Definition initial : State := mkState None IDLE [] [] [] [].

Definition setFile (v : option File) (s : State) : State :=
  mkState v (processingState s) (statusMessage s) (genreResults s)
    (tagResults s) (allHits s).

Definition setProcessingState (v : ProcessingState) (s : State) : State :=
  mkState (file s) v (statusMessage s) (genreResults s) (tagResults s)
    (allHits s).

Definition setStatusMessage (v : jsstring) (s : State) : State :=
  mkState (file s) (processingState s) v (genreResults s) (tagResults s)
    (allHits s).

Definition setGenreResults (v : list GenreResult) (s : State) : State :=
  mkState (file s) (processingState s) (statusMessage s) v (tagResults s)
    (allHits s).

Definition setTagResults (v : list TagResult) (s : State) : State :=
  mkState (file s) (processingState s) (statusMessage s) (genreResults s) v
    (allHits s).

Definition setAllHits (v : list KeywordHit) (s : State) : State :=
  mkState (file s) (processingState s) (statusMessage s) (genreResults s)
    (tagResults s) v.

(** The calls of a handler, in the order of the source. *)
Definition run (calls : list (State -> State)) (s : State) : State :=
  fold_left (fun s call => call s) calls s.

Definition resetState : State -> State :=
  run [setProcessingState IDLE;
       setStatusMessage [];
       setGenreResults [];
       setTagResults [];
       setAllHits []].

Definition handleFileSelect (selectedFile : File) : State -> State :=
  run [setFile (Some selectedFile); resetState].

(** Every error object the service or the engine throws is an instance of
    [Error]; [URIError] and [TypeError] are subclasses of it. *)
Definition instanceofError (error : Exception) : bool :=
  match error with
  | Error _ | URIError | TypeError => true
  end.

Section Processing.

(** The message the engine gives to an error of its own. *)
Variable engineMessage : Exception -> jsstring.

Definition message (error : Exception) : jsstring :=
  match error with
  | Error m => m
  | _ => engineMessage error
  end.

(** [handleProcess] up to its [await]: without a file it reports the error
    and returns; with one it shows the progress notice and starts the
    analysis. *)
Definition handleProcess_begin (s : State) : State :=
  match file s with
  | None =>
      run [setStatusMessage (js "Please select an ePub file to analyze.");
           setProcessingState ERROR] s
  | Some _ =>
      run [setProcessingState PROCESSING;
           setStatusMessage (js "Analyzing ePub... this may take a moment.");
           setGenreResults [];
           setTagResults [];
           setAllHits []] s
  end.

(** [handleProcess] from its [await] on, with the outcome of
    [epubProcessor.analyze(file)], applied to the state of that moment. *)
Definition handleProcess_resume (outcome : Completion AnalysisResult)
  : State -> State :=
  match outcome with
  | Normal (mkAnalysisResult genres tags allHits) =>
      run [setGenreResults genres;
           setTagResults tags;
           setAllHits allHits;
           setProcessingState SUCCESS;
           setStatusMessage (js "Analysis complete!")]
  | Throw error =>
      let errorMessage :=
        if instanceofError error then message error
        else js "An unknown error occurred." in
      run [setStatusMessage (js "Error: " ++ errorMessage);
           setProcessingState ERROR]
  end.

End Processing.

(** What the component computes for the display. *)

(** [results.length > 0 ? results[0].score : 0], for [topGenreScore] and
    [topTagScore]. *)
Definition topScore (results : list GenreResult) : Z :=
  match results with
  | result :: _ => score result
  | [] => 0%Z
  end.

Definition topGenreScore (s : State) : Z := topScore (genreResults s).
Definition topTagScore (s : State) : Z := topScore (tagResults s).

Definition totalScore (s : State) : Z :=
  (fold_left (fun sum result => sum + score result) (genreResults s) 0
   + fold_left (fun sum result => sum + score result) (tagResults s) 0)%Z.

(** [results.filter(r => r.score > 0)], the results that are listed. *)
Definition listed (results : list GenreResult) : list GenreResult :=
  filter (fun r => (0 <? score r)%Z) results.

(** The keywords shown under a result:
    [Object.entries(result.hits).sort(...).slice(0, 5)]. *)
Definition topKeywords (result : GenreResult) : list (jsstring * Z) :=
  firstn 5
    (Array_sort (fun a b => snd b - snd a)%Z (Object_entries (hits result))).


(** The button is disabled: [!file || processingState === PROCESSING]. *)
Definition buttonDisabled (s : State) : bool :=
  match file s with
  | None => true
  | Some _ => ProcessingState_eqb (processingState s) PROCESSING
  end.

(** The status box is shown:
    [statusMessage && processingState !== SUCCESS]. *)
Definition showsStatus (s : State) : bool :=
  negb (isEmpty (statusMessage s))
  && negb (ProcessingState_eqb (processingState s) SUCCESS).

(** The block of the results is shown. *)
Definition showsResults (s : State) : bool :=
  ProcessingState_eqb (processingState s) SUCCESS.





End App.

(** ** The component in use *)

Section Sessions.

Variable toUpperCase : jsstring -> jsstring.
Variable parseFromString : jsstring -> Document.
Variable bodyTextContent : jsstring -> option jsstring.
Variable URL_pathname : jsstring -> jsstring -> option jsstring.
Variable GENRE_KEYWORDS : Record (list jsstring).

(** [JSZip.loadAsync(file)]: the loaded archive, or the error of the library
    for a file that is no zip archive. *)
Variable loadAsync : File -> Completion JSZip.

Variable engineMessage : Exception -> jsstring.

(** [epubProcessor.analyze(file)]. *)
Definition analyze (file : File) : Completion AnalysisResult :=
  match loadAsync file with
  | Throw e => Throw e
  | Normal zip =>
      analyzeEpub toUpperCase parseFromString bodyTextContent URL_pathname
        GENRE_KEYWORDS zip
  end.

(** The state after the effects of a handler of [FileUpload], whose
    [onFileSelect] is [handleFileSelect]. *)
Definition afterEffects (effects : list FileUpload.Effect) (s : App.State)
  : App.State :=
  fold_left (fun s effect =>
               match effect with
               | FileUpload.onFileSelect file => App.handleFileSelect file s
               | FileUpload.alert _ => s
               end) effects s.

(** The states a session can reach, each with the analyses that have been
    started and have not settled yet.  Files arrive from the file dialog or
    by a drop at any time; the button starts an analysis when it is not
    disabled; a started analysis settles at some later time, in any order
    with the other events. *)
Inductive reachable : App.State -> list File -> Prop :=
| reach_initial : reachable App.initial []
| reach_change (s : App.State) (pending : list File) (files : list File) :
    reachable s pending ->
    reachable (afterEffects (FileUpload.handleFileChange files) s) pending
| reach_drop (s : App.State) (pending : list File) (files : list File) :
    reachable s pending ->
    reachable (afterEffects (FileUpload.handleDrop files) s) pending
| reach_click (s : App.State) (pending : list File) (file : File) :
    reachable s pending ->
    App.buttonDisabled s = false ->
    App.file s = Some file ->
    reachable (App.handleProcess_begin s) (file :: pending)
| reach_settle (s : App.State) (before after : list File) (file : File) :
    reachable s (before ++ file :: after) ->
    reachable (App.handleProcess_resume engineMessage (analyze file) s)
      (before ++ after).

End Sessions.

(** ** The matching rule in the words of the specification *)

Section KeywordRule.

Variable toUpperCase : jsstring -> jsstring.

(** One character of the keyword against one character of the corpus: the
    wildcard stands for one word-constituent character, any other character
    for itself, case ignored. *)
Definition keywordCharMatches (k x : code_unit) : bool :=
  if N.eqb k ASTERISK then isWordChar x
  else N.eqb (Canonicalize toUpperCase x) (Canonicalize toUpperCase k).

(** The text begins with the keyword. *)
Fixpoint beginsWith (keyword text : jsstring) : bool :=
  match keyword, text with
  | [], _ => true
  | k :: keyword', x :: text' =>
      keywordCharMatches k x && beginsWith keyword' text'
  | _ :: _, [] => false
  end.

(** A word boundary lies between [prev] and the head of [rest]: exactly one
    of the two is a word-constituent character. *)
Definition atWordBoundary (prev : option code_unit) (rest : jsstring) : bool :=
  xorb (IsWordChar prev) (IsWordChar (hd_error rest)).

(** A word starts at the head of [rest]. *)
Definition atWordStart (prev : option code_unit) (rest : jsstring) : bool :=
  negb (IsWordChar prev) && IsWordChar (hd_error rest).

(** The keyword occurs at a position: a word boundary immediately before it,
    and the text from there on begins with the keyword. *)
Definition keywordOccurs (keyword : jsstring) (prev : option code_unit)
    (rest : jsstring) : bool :=
  atWordBoundary prev rest && beginsWith keyword rest.

(** The non-overlapping occurrences, counted from left to right: an
    occurrence is counted and the count resumes behind it (one character
    later for the empty keyword); [skip] is the number of characters still
    covered by the occurrence counted last. *)
Fixpoint countOccurrences (keyword : jsstring) (prev : option code_unit)
    (rest : jsstring) (skip : nat) : nat :=
  match skip with
  | S k =>
      match rest with
      | [] => 0
      | x :: rest' => countOccurrences keyword (Some x) rest' k
      end
  | O =>
      if keywordOccurs keyword prev rest then
        S (match rest with
           | [] => 0
           | x :: rest' =>
               countOccurrences keyword (Some x) rest'
                 (Nat.pred (List.length keyword))
           end)
      else
        match rest with
        | [] => 0
        | x :: rest' => countOccurrences keyword (Some x) rest' 0
        end
  end%nat.

End KeywordRule.

(** The code unit before the position that follows [pre]. *)
Definition lastOf (pre : jsstring) : option code_unit :=
  hd_error (rev pre).

(** The code unit before the position that follows [pre], when the text
    before [pre] ends with [prev]. *)
Definition positionPrev (prev : option code_unit) (pre : jsstring)
  : option code_unit :=
  match lastOf pre with
  | Some x => Some x
  | None => prev
  end.

(** The term [escapeRegex] and [RegExp] make of one character of a keyword. *)
Definition keywordTerm (c : code_unit) : Term :=
  if N.eqb c ASTERISK then ClassWord else PatternChar c.

(** A case table that upper-cases the letters a to z and leaves every other
    code unit alone: the ASCII part of the Unicode table. *)
Definition asciiTable (s : jsstring) : jsstring := List.map asciiUpper s.

(** What the development assumes of the engine's case table: on ASCII it is
    the ASCII upper-casing. *)
Definition UpperCasesAscii (toUpperCase : jsstring -> jsstring) : Prop :=
  forall c : code_unit, (c < 128)%N -> toUpperCase [c] = [asciiUpper c].

(** ** Words for the properties of the scorer *)

Definition sumZ (l : list Z) : Z := fold_right Z.add 0%Z l.



Section ScoringRule.

Variable toUpperCase : jsstring -> jsstring.
Variable fullTextContent : jsstring.

(** The count of a keyword in the corpus of the run. *)
Definition countOf (keyword : jsstring) : Z :=
  keywordCount toUpperCase fullTextContent keyword.


(** What one category contributes to the results of its table. *)
Definition categoryResults (entry : jsstring * list jsstring)
  : list GenreResult :=
  let '(hits, totalScore) :=
    scoreKeywords toUpperCase fullTextContent (snd entry) in
  if (0 <? totalScore)%Z then [mkGenreResult (fst entry) totalScore hits]
  else [].

(** The total score of a category. *)
Definition totalOf (entry : jsstring * list jsstring) : Z :=
  sumZ (List.map countOf (snd entry)).


End ScoringRule.


(** No string occurs twice in the list. *)
Fixpoint distinctb (l : list jsstring) : bool :=
  match l with
  | [] => true
  | x :: l' => negb (existsb (str_eqb x) l') && distinctb l'
  end.

(** ** Words for the order of the results *)

(** The order of a list sorted by [key], largest first. *)
Definition largestFirst {A : Type} (key : A -> Z) (a b : A) : Prop :=
  (key b <= key a)%Z.



(** An entry of the aggregate map as a [KeywordHit]. *)
Definition toKeywordHit (entry : jsstring * Z) : KeywordHit :=
  let '(keyword, count) := entry in mkKeywordHit keyword count.

(** ** Words for the manifest and the reading order *)


(** The test of the [forEach] callback, in one piece: id and href are
    non-empty and the media type contains "html", letter case respected. *)
Definition isTextDocument (item : Element) : bool :=
  truthy (getAttribute item (js "id"))
  && truthy (getAttribute item (js "href"))
  && match getAttribute item (js "media-type") with
     | Some mediaType => String_includes mediaType (js "html")
     | None => false
     end.


(** What the loop makes of one spine reference before it looks at
    [seenPaths]: it skips it, or has its archive path, or throws. *)
Inductive Resolution : Type :=
| Skipped
| Resolved (chapterFilePath : jsstring)
| Failed (e : Exception).

Section ReadingOrderRule.

Variable bodyTextContent : jsstring -> option jsstring.
Variable URL_pathname : jsstring -> jsstring -> option jsstring.
Variable zip : JSZip.
Variable manifestItems : Record jsstring.
Variable opfPath : jsstring.

Definition resolve (idref : option jsstring) : Resolution :=
  match idref with
  | None => Skipped
  | Some id =>
      if isEmpty id then Skipped
      else
        match obj_get manifestItems id with
        | None => Skipped
        | Some href =>
            if isEmpty href then Skipped
            else
              match chapterFilePathOf URL_pathname opfPath href with
              | Throw e => Failed e
              | Normal chapterFilePath => Resolved chapterFilePath
              end
        end
  end.

(** The text the loop appends for an archive path. *)
Definition chapterText (chapterFilePath : jsstring) : jsstring :=
  match zip_file zip chapterFilePath with
  | Some chapterContent =>
      getHtmlTextContent bodyTextContent chapterContent ++ [SPACE]
  | None => []
  end.

End ReadingOrderRule.

(** What follows a percent sign is not two hexadecimal digits. *)
Definition malformedEscape (post : jsstring) : bool :=
  match post with
  | h :: l :: _ =>
      match hexByte h l with
      | Some _ => false
      | None => true
      end
  | _ => true
  end.

(** ** Words for the errors *)

(** The names the specification gives to the errors of a run. *)
Inductive ErrorKind : Type :=
| ArchiveError
| MissingContainer
| MalformedContainer
| MissingRootfilePath
| ManifestNotFound
| MalformedManifest
| NoExtractableContent.

(** The name of the specification for an exception of the service, read off
    its message; [None] for an exception the specification does not name. *)
Definition errorKind (e : Exception) : option ErrorKind :=
  match e with
  | Error message =>
      if str_eqb message (js "META-INF/container.xml not found in epub.") then
        Some MissingContainer
      else if str_eqb message
                (js "Could not find rootfile path in container.xml.") then
        Some MissingRootfilePath
      else if isPrefixOf (js "OPF file not found at path: ") message then
        Some ManifestNotFound
      else if str_eqb message
                (js "Could not extract any text content from the ePub spine files.")
      then Some NoExtractableContent
      else None
  | URIError => None
  | TypeError => None
  end.

(** ** Words for the corpus of a reading order *)

Section ReadingOrderWords.

Variable URL_pathname : jsstring -> jsstring -> option jsstring.
Variable manifestItems : Record jsstring.
Variable opfPath : jsstring.



End ReadingOrderWords.

(** ** Words for the entries a run reads *)

Section EntriesWords.

Variable parseFromString : jsstring -> Document.
Variable URL_pathname : jsstring -> jsstring -> option jsstring.


End EntriesWords.

(** ** Words for percent-encoded paths *)






(** ** Words for the result of a category *)

Section CategoryWords.

Variable toUpperCase : jsstring -> jsstring.
Variable fullTextContent : jsstring.



End CategoryWords.

(** ** Small books for the examples *)

Definition attr (name value : string) : string * string := (name, value).

Definition el (name : string) (attrs : list (string * string))
    (content : list Element) : Element :=
  Elem (js name) (List.map (fun a => (js (fst a), js (snd a))) attrs) content.

Definition containerXml : jsstring :=
  js "<container><rootfiles>"
  ++ js "<rootfile full-path='OEBPS/content.opf'/>"
  ++ js "</rootfiles></container>".

Definition containerDocument : Document :=
  el "container" []
    [el "rootfiles" []
       [el "rootfile" [attr "full-path" "OEBPS/content.opf"] []]].

(** A well-formed container that declares no root file. *)
Definition emptyContainerXml : jsstring :=
  js "<container><rootfiles/></container>".

Definition emptyContainerDocument : Document :=
  el "container" [] [el "rootfiles" [] []].


(** The document a parser returns for text that is not well-formed. *)
Definition parsererrorDocument : Document :=
  el "parsererror" [] [el "sourcetext" [] []].

Definition wizardOpfXml : jsstring :=
  js "<package><manifest>"
  ++ js "<item id='ch1' href='ch1.xhtml' media-type='application/xhtml+xml'/>"
  ++ js "</manifest><spine><itemref idref='ch1'/></spine></package>".

Definition wizardOpfDocument : Document :=
  el "package" []
    [el "manifest" []
       [el "item" [attr "id" "ch1"; attr "href" "ch1.xhtml";
                   attr "media-type" "application/xhtml+xml"] []];
     el "spine" [] [el "itemref" [attr "idref" "ch1"] []]].

(** A package whose manifest declares a style sheet and no markup. *)
Definition stylesOpfXml : jsstring :=
  js "<package><manifest>"
  ++ js "<item id='css' href='style.css' media-type='text/css'/>"
  ++ js "</manifest><spine><itemref idref='css'/></spine></package>".

Definition stylesOpfDocument : Document :=
  el "package" []
    [el "manifest" []
       [el "item" [attr "id" "css"; attr "href" "style.css";
                   attr "media-type" "text/css"] []];
     el "spine" [] [el "itemref" [attr "idref" "css"] []]].

(** A package whose chapter href holds a lone percent sign. *)
Definition percentOpfXml : jsstring :=
  js "<package><manifest>"
  ++ js "<item id='ch1' href='100%.xhtml' media-type='application/xhtml+xml'/>"
  ++ js "</manifest><spine><itemref idref='ch1'/></spine></package>".

Definition percentOpfDocument : Document :=
  el "package" []
    [el "manifest" []
       [el "item" [attr "id" "ch1"; attr "href" "100%.xhtml";
                   attr "media-type" "application/xhtml+xml"] []];
     el "spine" [] [el "itemref" [attr "idref" "ch1"] []]].

(** The XML parser on the texts of the examples: each well-formed text with
    its document, any other text with the error document. *)
Definition exampleParser (s : jsstring) : Document :=
  match obj_get
          [(containerXml, containerDocument);
           (emptyContainerXml, emptyContainerDocument);
           (wizardOpfXml, wizardOpfDocument);
           (stylesOpfXml, stylesOpfDocument);
           (percentOpfXml, percentOpfDocument)] s with
  | Some doc => doc
  | None => parsererrorDocument
  end.

Definition LESS_THAN : code_unit := Eval cbv in ch "<".
Definition GREATER_THAN : code_unit := Eval cbv in ch ">".
Definition SLASH : code_unit := Eval cbv in ch "/".

(** The text between the tags of simple markup. *)
Fixpoint textBetweenTags (inTag : bool) (s : jsstring) : jsstring :=
  match s with
  | [] => []
  | c :: s' =>
      if N.eqb c LESS_THAN then textBetweenTags true s'
      else if N.eqb c GREATER_THAN then textBetweenTags false s'
      else if inTag then textBetweenTags inTag s'
      else c :: textBetweenTags inTag s'
  end.

Definition exampleBodyText (htmlString : jsstring) : option jsstring :=
  Some (textBetweenTags false htmlString).

(** The part of a path up to its last slash. *)
Fixpoint directoryOf (path : jsstring) : jsstring :=
  match path with
  | [] => []
  | c :: path' =>
      if existsb (N.eqb SLASH) path then c :: directoryOf path' else []
  end.

(** URL resolution for a plain relative href: the href is put in the
    directory of the OPF file. *)
Definition examplePathname (chapterHref opfPath : jsstring) : option jsstring :=
  Some (SLASH :: directoryOf opfPath ++ chapterHref).

Definition wizardBook : JSZip :=
  [(js "mimetype", js "application/epub+zip");
   (js "META-INF/container.xml", containerXml);
   (js "OEBPS/content.opf", wizardOpfXml);
   (js "OEBPS/ch1.xhtml", js "<p>The wizard cast a spell of fire.</p>")].


Definition percentBook : JSZip :=
  [(js "META-INF/container.xml", containerXml);
   (js "OEBPS/content.opf", percentOpfXml);
   (js "OEBPS/100%.xhtml", js "<p>One hundred percent.</p>")].



(** A file of the browser that holds the small book. *)
Definition wizardFile : File :=
  mkFile (js "wizard.epub") (js "application/epub+zip") [].

(** A library that loads that book from every file. *)
Definition exampleLoader (file : File) : Completion JSZip := Normal wizardBook.

(** * Properties *)

(** ** Strings *)

Lemma str_eqb_eq (a b : jsstring) : str_eqb a b = true <-> a = b.
Proof.
  revert b; induction a as [|x a IH]; intros [|y b]; simpl; split;
    try congruence; try reflexivity.
  - intros H. apply andb_true_iff in H as [Hx Hab].
    apply N.eqb_eq in Hx. apply IH in Hab. congruence.
  - intros H. injection H as -> ->. rewrite N.eqb_refl. now apply IH.
Qed.

Lemma str_eqb_refl (a : jsstring) : str_eqb a a = true.
Proof. now apply str_eqb_eq. Qed.

Lemma str_eqb_neq (a b : jsstring) : str_eqb a b = false <-> a <> b.
Proof.
  split.
  - intros H E. apply str_eqb_eq in E. congruence.
  - intros H. destruct (str_eqb a b) eqn:E; [|reflexivity].
    apply str_eqb_eq in E. contradiction.
Qed.

Lemma str_eqb_sym (a b : jsstring) : str_eqb a b = str_eqb b a.
Proof.
  destruct (str_eqb a b) eqn:E.
  - apply str_eqb_eq in E. subst. now rewrite str_eqb_refl.
  - symmetry. apply str_eqb_neq. apply str_eqb_neq in E. congruence.
Qed.

(** A property of the code units below [n], checked by evaluation. *)
Lemma forall_below (P : code_unit -> bool) (n : nat) :
  forallb P (List.map N.of_nat (seq 0 n)) = true ->
  forall c : code_unit, (c < N.of_nat n)%N -> P c = true.
Proof.
  intros H c Hc. rewrite forallb_forall in H. apply H.
  apply in_map_iff. exists (N.to_nat c). split.
  - apply N2Nat.id.
  - apply in_seq. lia.
Qed.

Lemma inClass_In (c : code_unit) (cls : jsstring) :
  inClass c cls = true <-> In c cls.
Proof.
  unfold inClass. rewrite existsb_exists. split.
  - intros [x [Hx E]]. apply N.eqb_eq in E. now subst.
  - intros H. exists c. split; [assumption | apply N.eqb_refl].
Qed.

Lemma isWordChar_ascii (c : code_unit) : isWordChar c = true -> (c < 128)%N.
Proof.
  intros H. apply inClass_In in H.
  assert (A : Forall (fun x => (x < 128)%N) WordCharacters).
  { unfold WordCharacters. repeat constructor. }
  rewrite Forall_forall in A. now apply A.
Qed.

Lemma isWordChar_asciiUpper (c : code_unit) :
  isWordChar (asciiUpper c) = isWordChar c.
Proof.
  destruct (N.ltb_spec c 128) as [Hc|Hc].
  - apply (forall_below
             (fun c => Bool.eqb (isWordChar (asciiUpper c)) (isWordChar c)) 128)
      in Hc; [|vm_compute; reflexivity].
    now apply eqb_prop in Hc.
  - unfold asciiUpper.
    destruct ((97 <=? c)%N && (c <=? 122)%N) eqn:E; [|reflexivity].
    apply andb_true_iff in E as [_ E]. apply N.leb_le in E. lia.
Qed.

Lemma asciiUpper_ascii (c : code_unit) : (c < 128)%N -> (asciiUpper c < 128)%N.
Proof.
  intros H. unfold asciiUpper.
  destruct ((97 <=? c)%N && (c <=? 122)%N); lia.
Qed.

(** ** The pattern built from a keyword *)

Lemma existsb_ext_in {A : Type} (f g : A -> bool) (l : list A) :
  (forall x, In x l -> f x = g x) -> existsb f l = existsb g l.
Proof.
  induction l as [|a l IH]; intros H; simpl; [reflexivity|].
  rewrite (H a (or_introl eq_refl)). f_equal.
  apply IH. intros x Hx. apply H. now right.
Qed.

Ltac split_orb H :=
  repeat match type of H with
         | (_ || _)%bool = false =>
             let H1 := fresh "Hne" in
             apply orb_false_iff in H as [H1 H]
         end.

Lemma escapeRegex_cons (c : code_unit) (str : jsstring) :
  escapeRegex (c :: str)
  = replaceAsterisk (if inClass c escapedClass then [BACKSLASH; c] else [c])
    ++ escapeRegex str.
Proof.
  unfold escapeRegex, replaceSpecial, replaceAsterisk. simpl flat_map.
  apply flat_map_app.
Qed.

(** One character of a keyword becomes one term of the pattern: the wildcard
    becomes the class [\w], any other character a literal, escaped or not. *)
Lemma RegExp_escapeRegex_cons (c : code_unit) (str : jsstring) :
  RegExp (escapeRegex (c :: str))
  = option_map (cons (keywordTerm c)) (RegExp (escapeRegex str)).
Proof.
  rewrite escapeRegex_cons. generalize (escapeRegex str) as rest. intros rest.
  destruct (inClass c escapedClass) eqn:Hc.
  - apply inClass_In in Hc. unfold escapedClass in Hc. simpl in Hc.
    repeat (destruct Hc as [Hc|Hc]; [subst c; reflexivity|]).
    contradiction.
  - unfold inClass, escapedClass in Hc. simpl in Hc. split_orb Hc.
    unfold keywordTerm, replaceAsterisk. simpl flat_map.
    destruct (N.eqb c ASTERISK) eqn:Hstar.
    + reflexivity.
    + simpl app. unfold ASTERISK in Hstar.
      cbn [RegExp]. unfold BACKSLASH, isSyntaxCharacter, inClass,
          syntaxCharacters.
      simpl existsb.
      repeat match goal with
             | H : N.eqb c _ = false |- _ => rewrite ?H; clear H
             end.
      reflexivity.
Qed.

Lemma RegExp_escapeRegex (str : jsstring) :
  RegExp (escapeRegex str) = Some (List.map keywordTerm str).
Proof.
  induction str as [|c str IH]; [reflexivity|].
  rewrite RegExp_escapeRegex_cons, IH. reflexivity.
Qed.

Lemma RegExp_keyword_pattern (keyword : jsstring) :
  RegExp ([BACKSLASH; LOWER_B] ++ escapeRegex keyword)
  = Some (AssertWordBoundary :: List.map keywordTerm keyword).
Proof.
  change (option_map (cons AssertWordBoundary) (RegExp (escapeRegex keyword))
          = Some (AssertWordBoundary :: List.map keywordTerm keyword)).
  rewrite RegExp_escapeRegex. reflexivity.
Qed.

(** ** Matching a keyword pattern *)

Section KeywordMatching.

Variable toUpperCase : jsstring -> jsstring.
Hypothesis Hup : UpperCasesAscii toUpperCase.

Lemma Canonicalize_ascii (c : code_unit) : (c < 128)%N -> Canonicalize
    toUpperCase c = asciiUpper c.
Proof.
  intros Hc. unfold Canonicalize. rewrite (Hup c Hc).
  destruct (N.leb_spec 128 c); [lia | reflexivity].
Qed.

Lemma Canonicalize_nonascii (c : code_unit) : (128 <= c)%N ->
    (128 <= Canonicalize toUpperCase c)%N.
Proof.
  intros Hc. unfold Canonicalize.
  destruct (toUpperCase [c]) as [|cu [|? ?]]; try assumption.
  destruct (N.leb_spec 128 c); [|lia]. simpl.
  destruct (N.ltb_spec cu 128); [assumption | lia].
Qed.

(** With the [i] flag the class [\w] still holds exactly the word characters:
    no code unit outside ASCII is canonicalized into ASCII. *)
Lemma classWord_isWordChar (x : code_unit) :
  existsb (fun m => N.eqb (Canonicalize toUpperCase m)
      (Canonicalize toUpperCase x)) WordCharacters = isWordChar x.
Proof.
  destruct (N.ltb_spec x 128) as [Hx|Hx].
  - rewrite (existsb_ext_in _ (fun m => N.eqb (asciiUpper m) (asciiUpper x))).
    + apply (forall_below
               (fun x => Bool.eqb
                           (existsb (fun m => N.eqb (asciiUpper m)
                               (asciiUpper x))
                              WordCharacters)
                           (isWordChar x)) 128) in Hx;
                               [|vm_compute; reflexivity].
      now apply eqb_prop in Hx.
    + intros m Hm. apply inClass_In, isWordChar_ascii in Hm.
      now rewrite !Canonicalize_ascii.
  - assert (Hw : isWordChar x = false).
    { destruct (isWordChar x) eqn:E; [|reflexivity].
      apply isWordChar_ascii in E. lia. }
    rewrite Hw. apply not_true_is_false. intros H.
    apply existsb_exists in H as [m [Hm E]]. apply N.eqb_eq in E.
    apply inClass_In, isWordChar_ascii in Hm.
    pose proof (Canonicalize_nonascii x Hx) as Hn.
    rewrite (Canonicalize_ascii m Hm) in E.
    pose proof (asciiUpper_ascii m Hm). lia.
Qed.

Lemma matchTerm_keywordTerm (k : code_unit) (prev : option code_unit)
    (rest : jsstring) :
  matchTerm toUpperCase (keywordTerm k) prev rest
  = match rest with
    | x :: _ => if keywordCharMatches toUpperCase k x then Some 1 else None
    | [] => None
    end.
Proof.
  unfold keywordTerm, keywordCharMatches.
  destruct (N.eqb k ASTERISK); cbn [matchTerm]; destruct rest as [|x rest];
    try reflexivity.
  now rewrite classWord_isWordChar.
Qed.

Lemma matchTerms_keyword (keyword : jsstring) :
  forall (prev : option code_unit) (rest : jsstring),
    matchTerms toUpperCase (List.map keywordTerm keyword) prev rest
    = if beginsWith toUpperCase keyword rest then Some (List.length keyword)
      else None.
Proof.
  induction keyword as [|k keyword IH]; intros prev rest; [reflexivity|].
  cbn [List.map matchTerms]. rewrite matchTerm_keywordTerm.
  destruct rest as [|x rest]; [reflexivity|]. cbn [beginsWith].
  destruct (keywordCharMatches toUpperCase k x); [|reflexivity].
  cbn [advance andb]. rewrite IH.
  destruct (beginsWith toUpperCase keyword rest); reflexivity.
Qed.

(** The whole pattern at a position: it matches exactly where the keyword
    occurs, and the match is as long as the keyword. *)
Lemma matchTerms_pattern (keyword : jsstring) (prev : option code_unit)
    (rest : jsstring) :
  matchTerms toUpperCase (AssertWordBoundary :: List.map keywordTerm keyword)
    prev rest
  = if keywordOccurs toUpperCase keyword prev rest
    then Some (List.length keyword) else None.
Proof.
  cbn [matchTerms matchTerm]. unfold keywordOccurs, atWordBoundary.
  destruct (xorb (IsWordChar prev) (IsWordChar (hd_error rest)));
      [|reflexivity].
  cbn [advance andb]. rewrite matchTerms_keyword.
  destruct (beginsWith toUpperCase keyword rest); reflexivity.
Qed.

Lemma matchCount_countOccurrences (keyword : jsstring) :
  forall (rest : jsstring) (prev : option code_unit) (skip : nat),
    matchCount toUpperCase (AssertWordBoundary :: List.map keywordTerm keyword)
      prev rest skip
    = countOccurrences toUpperCase keyword prev rest skip.
Proof.
  induction rest as [|x rest IH]; intros prev skip.
  - destruct skip as [|k]; [|reflexivity].
    cbn [matchCount countOccurrences]. rewrite matchTerms_pattern.
    destruct (keywordOccurs toUpperCase keyword prev []); reflexivity.
  - destruct skip as [|k].
    + cbn [matchCount countOccurrences]. rewrite matchTerms_pattern.
      destruct (keywordOccurs toUpperCase keyword prev (x :: rest));
        now rewrite IH.
    + cbn [matchCount countOccurrences]. apply IH.
Qed.

Lemma keywordCount_countOccurrences (fullTextContent keyword : jsstring) :
  keywordCount toUpperCase fullTextContent keyword
  = Z.of_nat (countOccurrences toUpperCase keyword None fullTextContent 0).
Proof.
  unfold keywordCount. rewrite RegExp_keyword_pattern.
  now rewrite matchCount_countOccurrences.
Qed.

End KeywordMatching.

(** ** Where the count is positive *)

Section Occurrences.

Variable toUpperCase : jsstring -> jsstring.

Lemma positionPrev_cons (prev : option code_unit) (x : code_unit)
    (pre : jsstring) :
  positionPrev prev (x :: pre) = positionPrev (Some x) pre.
Proof.
  unfold positionPrev, lastOf. simpl rev.
  destruct (rev pre) as [|y l]; reflexivity.
Qed.

(** An occurrence that the previous match does not cover is counted, or one
    before it is. *)
Lemma occurrence_counted (keyword post : jsstring) :
  forall (pre : jsstring) (prev : option code_unit) (skip : nat),
    skip <= List.length pre ->
    keywordOccurs toUpperCase keyword (positionPrev prev pre) post = true ->
    1 <= countOccurrences toUpperCase keyword prev (pre ++ post) skip.
Proof.
  induction pre as [|x pre IH]; intros prev skip Hskip Hocc.
  - simpl in Hskip. assert (skip = 0) by lia. subst skip.
    change (positionPrev prev []) with prev in Hocc. simpl app.
    destruct post as [|y post]; cbn [countOccurrences]; rewrite Hocc; lia.
  - rewrite positionPrev_cons in Hocc. simpl app. simpl in Hskip.
    destruct skip as [|k]; cbn [countOccurrences].
    + destruct (keywordOccurs toUpperCase keyword prev (x :: pre ++ post)).
      * lia.
      * apply IH; [lia | assumption].
    + apply IH; [lia | assumption].
Qed.

(** Every counted match is an occurrence of the keyword in the text. *)
Lemma counted_occurrence (keyword : jsstring) :
  forall (rest : jsstring) (prev : option code_unit) (skip : nat),
    1 <= countOccurrences toUpperCase keyword prev rest skip ->
    exists pre post,
      rest = pre ++ post
      /\ keywordOccurs toUpperCase keyword (positionPrev prev pre) post = true.
Proof.
  induction rest as [|x rest IH]; intros prev skip Hc.
  - destruct skip as [|k]; cbn [countOccurrences] in Hc; [|lia].
    destruct (keywordOccurs toUpperCase keyword prev []) eqn:E; [|lia].
    exists [], []. split; [reflexivity | exact E].
  - assert (Hrec : forall k,
               1 <= countOccurrences toUpperCase keyword (Some x) rest k ->
               exists pre post,
                 x :: rest = pre ++ post
                 /\ keywordOccurs toUpperCase keyword (positionPrev prev pre)
                     post
                    = true).
    { intros k Hk. destruct (IH (Some x) k Hk) as [pre [post [E Hocc]]].
      exists (x :: pre), post. split; [now rewrite E|].
      now rewrite positionPrev_cons. }
    destruct skip as [|k]; cbn [countOccurrences] in Hc.
    + destruct (keywordOccurs toUpperCase keyword prev (x :: rest)) eqn:E.
      * exists [], (x :: rest). split; [reflexivity | exact E].
      * now apply (Hrec 0).
    + now apply (Hrec k).
Qed.

Lemma countOccurrences_positive (keyword corpus : jsstring) :
  1 <= countOccurrences toUpperCase keyword None corpus 0
  <-> exists pre post,
      corpus = pre ++ post
      /\ keywordOccurs toUpperCase keyword (lastOf pre) post = true.
Proof.
  assert (P : forall pre, positionPrev None pre = lastOf pre).
  { intros pre. unfold positionPrev. destruct (lastOf pre); reflexivity. }
  split.
  - intros H. destruct (counted_occurrence _ _ _ _ H) as [pre [post [E Hocc]]].
    exists pre, post. now rewrite <- P.
  - intros [pre [post [E Hocc]]]. subst corpus.
    apply occurrence_counted; [lia | now rewrite P].
Qed.

End Occurrences.

(** ** The keyword rule of the scorer *)

Section KeywordClaim.

Variable toUpperCase : jsstring -> jsstring.
Hypothesis Hup : UpperCasesAscii toUpperCase.





End KeywordClaim.

Lemma asciiTable_UpperCasesAscii : UpperCasesAscii asciiTable.
Proof. intros c _. reflexivity. Qed.

(** The examples of the specification, evaluated: "magic" is found in
    "Magical"; "wom*n" in "woman" and "women", not in "womn" or "womaan"; the
    full stop of a keyword is a full stop. *)
Example keyword_examples :
  keywordCount asciiTable (js "Magical forest") (js "magic") = 1%Z
  /\ keywordCount asciiTable (js "woman") (js "wom*n") = 1%Z
  /\ keywordCount asciiTable (js "women") (js "wom*n") = 1%Z
  /\ keywordCount asciiTable (js "womn") (js "wom*n") = 0%Z
  /\ keywordCount asciiTable (js "womaan") (js "wom*n") = 0%Z
  /\ keywordCount asciiTable (js "a.b axb") (js "a.b") = 1%Z
  /\ keywordCount asciiTable (js "unmagic") (js "magic") = 0%Z.
Proof. repeat split; vm_compute; reflexivity. Qed.


(** ** Records *)

Section Records.

Context {T : Type}.

Lemma obj_get_set_same (o : Record T) (k : jsstring) (v : T) :
  obj_get (obj_set o k v) k = Some v.
Proof.
  induction o as [|[k' v'] o IH]; simpl.
  - now rewrite str_eqb_refl.
  - destruct (str_eqb k' k) eqn:E; simpl; rewrite E; [reflexivity | exact IH].
Qed.

Lemma obj_get_set_other (o : Record T) (k k' : jsstring) (v : T) :
  k <> k' -> obj_get (obj_set o k v) k' = obj_get o k'.
Proof.
  intros Hne. induction o as [|[k0 v0] o IH]; simpl.
  - apply str_eqb_neq in Hne. now rewrite Hne.
  - destruct (str_eqb k0 k) eqn:E; simpl.
    + apply str_eqb_eq in E. subst k0. apply str_eqb_neq in Hne.
      now rewrite Hne.
    + now rewrite IH.
Qed.


Lemma obj_get_In (o : Record T) (k : jsstring) (v : T) :
  obj_get o k = Some v -> In (k, v) o.
Proof.
  induction o as [|[k' v'] o IH]; simpl; [discriminate|].
  destruct (str_eqb k' k) eqn:E.
  - apply str_eqb_eq in E. intros [= ->]. left. now subst.
  - intros H. right. now apply IH.
Qed.


Lemma keys_obj_set (o : Record T) (k : jsstring) (v : T) :
  List.map fst (obj_set o k v)
  = if existsb (str_eqb k) (List.map fst o) then List.map fst o
    else List.map fst o ++ [k].
Proof.
  induction o as [|[k' v'] o IH]; simpl; [reflexivity|].
  rewrite (str_eqb_sym k k').
  destruct (str_eqb k' k) eqn:E; simpl; [reflexivity|].
  rewrite IH. destruct (existsb (str_eqb k) (List.map fst o)); reflexivity.
Qed.

Lemma existsb_str_eqb (k : jsstring) (l : list jsstring) :
  existsb (str_eqb k) l = true <-> In k l.
Proof.
  rewrite existsb_exists. split.
  - intros [x [Hx E]]. apply str_eqb_eq in E. now subst.
  - intros H. exists k. split; [assumption | apply str_eqb_refl].
Qed.

Lemma NoDup_keys_obj_set (o : Record T) (k : jsstring) (v : T) :
  NoDup (List.map fst o) -> NoDup (List.map fst (obj_set o k v)).
Proof.
  intros Hnd. rewrite keys_obj_set.
  destruct (existsb (str_eqb k) (List.map fst o)) eqn:E; [assumption|].
  apply NoDup_app; [assumption | repeat constructor; intros [] |].
  intros x Hx [<-|[]].
  apply existsb_str_eqb in Hx. congruence.
Qed.

Lemma In_obj_set (o : Record T) (k k' : jsstring) (v v' : T) :
  In (k', v') (obj_set o k v) -> (k' = k /\ v' = v) \/ In (k', v') o.
Proof.
  induction o as [|[k0 v0] o IH]; simpl.
  - intros [E|[]]. left. now injection E as -> ->.
  - destruct (str_eqb k0 k) eqn:E; simpl.
    + apply str_eqb_eq in E. subst k0.
      intros [E'|H]; [left; now injection E' as -> -> | right; now right].
    + intros [E'|H]; [right; now left|].
      destruct (IH H) as [?|?]; [now left | right; now right].
Qed.

(** [Object.entries] lists the properties of the object, each once. *)
Lemma insertByIndex_Permutation (p : jsstring * T) (l : Record T) :
  Permutation (insertByIndex p l) (p :: l).
Proof.
  induction l as [|q l IH]; simpl; [reflexivity|].
  destruct (indexOf (fst p) <=? indexOf (fst q))%N; [reflexivity|].
  rewrite IH. apply perm_swap.
Qed.

Lemma ascendingIndex_Permutation (l : Record T) :
  Permutation (ascendingIndex l) l.
Proof.
  induction l as [|p l IH]; simpl; [reflexivity|].
  rewrite insertByIndex_Permutation. now constructor.
Qed.

Lemma filter_partition_Permutation {A : Type} (f : A -> bool) (l : list A) :
  Permutation (filter f l ++ filter (fun x => negb (f x)) l) l.
Proof.
  induction l as [|x l IH]; simpl; [reflexivity|].
  destruct (f x); simpl.
  - now constructor.
  - rewrite <- Permutation_middle. now constructor.
Qed.

Lemma Object_entries_Permutation (o : Record T) :
  Permutation (Object_entries o) o.
Proof.
  unfold Object_entries. rewrite ascendingIndex_Permutation.
  apply filter_partition_Permutation.
Qed.


Lemma Object_entries_NoDup (o : Record T) :
  NoDup (List.map fst o) -> NoDup (List.map fst (Object_entries o)).
Proof.
  apply Permutation_NoDup. apply Permutation_map. symmetry.
  apply Object_entries_Permutation.
Qed.


End Records.

(** ** Sorting *)

Section Sorting.

Context {A : Type}.

(** The number the comparator of the service sorts by, largest first:
    [(a, b) => key(b) - key(a)]. *)
Variable key : A -> Z.

Lemma sortInsert_Permutation (comparefn : A -> A -> Z) (x : A) (l : list A) :
  Permutation (sortInsert comparefn x l) (x :: l).
Proof.
  induction l as [|y l IH]; simpl; [reflexivity|].
  destruct (comparefn x y <=? 0)%Z; [reflexivity|].
  rewrite IH. apply perm_swap.
Qed.

Lemma Array_sort_Permutation (comparefn : A -> A -> Z) (l : list A) :
  Permutation (Array_sort comparefn l) l.
Proof.
  induction l as [|x l IH]; simpl; [reflexivity|].
  rewrite sortInsert_Permutation. now constructor.
Qed.

Lemma sortInsert_Sorted (x : A) (l : list A) :
  Sorted (largestFirst key) l ->
  Sorted (largestFirst key) (sortInsert (fun a b => key b - key a)%Z x l).
Proof.
  induction l as [|y l IH]; intros Hs; simpl.
  - repeat constructor.
  - destruct (Z.leb_spec (key y - key x) 0) as [Hle|Hgt].
    + constructor; [assumption|]. constructor. unfold largestFirst. lia.
    + inversion Hs as [|? ? Hs' Hhd]; subst.
      constructor; [now apply IH|].
      destruct l as [|z l]; simpl.
      * constructor. unfold largestFirst. lia.
      * destruct (key z - key x <=? 0)%Z.
        -- constructor. unfold largestFirst. lia.
        -- inversion Hhd; subst. now constructor.
Qed.

Lemma Array_sort_Sorted (l : list A) :
  Sorted (largestFirst key) (Array_sort (fun a b => key b - key a)%Z l).
Proof.
  induction l as [|x l IH]; simpl; [constructor|].
  now apply sortInsert_Sorted.
Qed.

Lemma Array_sort_StronglySorted (l : list A) :
  StronglySorted (largestFirst key) (Array_sort (fun a b => key b - key a)%Z l).
Proof.
  apply Sorted_StronglySorted; [|apply Array_sort_Sorted].
  intros a b c. unfold largestFirst. lia.
Qed.



End Sorting.

(** ** Scoring one table *)


Lemma sumZ_nonneg (l : list Z) :
  (forall x, In x l -> (0 <= x)%Z) -> (0 <= sumZ l)%Z.
Proof.
  induction l as [|x l IH]; intros H; simpl; [lia|].
  assert (0 <= x)%Z by (apply H; now left).
  assert (0 <= sumZ l)%Z by (apply IH; intros y Hy; apply H; now right).
  lia.
Qed.

Lemma sumZ_zero (l : list Z) :
  (forall x, In x l -> (0 <= x)%Z) -> sumZ l = 0%Z ->
  forall x, In x l -> x = 0%Z.
Proof.
  induction l as [|y l IH]; intros Hnn Hs x Hx; [contradiction|].
  simpl in Hs.
  assert (0 <= y)%Z by (apply Hnn; now left).
  assert (0 <= sumZ l)%Z
    by (apply sumZ_nonneg; intros z Hz; apply Hnn; now right).
  destruct Hx as [<-|Hx]; [lia|].
  apply IH; [intros z Hz; apply Hnn; now right | lia | assumption].
Qed.

Lemma sumZ_positive (l : list Z) :
  (forall x, In x l -> (0 <= x)%Z) ->
  ((0 < sumZ l)%Z <-> exists x, In x l /\ (0 < x)%Z).
Proof.
  intros Hnn. split.
  - intros Hs. induction l as [|y l IH]; simpl in Hs; [lia|].
    destruct (Z.ltb_spec 0 y) as [Hy|Hy].
    + exists y. split; [now left | assumption].
    + assert (0 <= y)%Z by (apply Hnn; now left).
      destruct IH as [x [Hx Hpos]];
        [intros z Hz; apply Hnn; now right | lia |].
      exists x. split; [now right | assumption].
  - intros [x [Hx Hpos]].
    destruct (Z.ltb_spec 0 (sumZ l)) as [|Hle]; [assumption|].
    assert (sumZ l = 0%Z) by (pose proof (sumZ_nonneg l Hnn); lia).
    pose proof (sumZ_zero l Hnn H x Hx). lia.
Qed.

Lemma fold_left_push {A B : Type} (f : A -> list B) (l : list A)
    (init : list B) :
  fold_left (fun acc a => acc ++ f a) l init = init ++ flat_map f l.
Proof.
  revert init. induction l as [|a l IH]; intros init; simpl.
  - now rewrite app_nil_r.
  - now rewrite IH, app_assoc.
Qed.

Lemma fold_left_same {A B : Type} (f g : A -> B -> A) (l : list B) (init : A) :
  (forall a b, f a b = g a b) -> fold_left f l init = fold_left g l init.
Proof.
  intros H. revert init. induction l as [|b l IH]; intros init; simpl.
  - reflexivity.
  - now rewrite H, IH.
Qed.


Lemma keywordCount_nonnegative (toUpperCase : jsstring -> jsstring)
    (fullTextContent keyword : jsstring) :
  (0 <= keywordCount toUpperCase fullTextContent keyword)%Z.
Proof.
  unfold keywordCount.
  destruct (RegExp ([BACKSLASH; LOWER_B] ++ escapeRegex keyword)); lia.
Qed.

Section Scoring.

Variable up : jsstring -> jsstring.
Variable text : jsstring.

Lemma countOf_nonneg (k : jsstring) : (0 <= countOf up text k)%Z.
Proof. apply keywordCount_nonnegative. Qed.

Lemma scoreKeyword_step (hits : Record Z) (totalScore : Z) (k : jsstring) :
  scoreKeyword up text (hits, totalScore) k
  = (if (0 <? countOf up text k)%Z then obj_set hits k (countOf up text k) else
      hits,
     (totalScore + countOf up text k)%Z).
Proof.
  unfold scoreKeyword. fold (countOf up text k). pose proof (countOf_nonneg k).
  destruct (Z.ltb_spec 0 (countOf up text k)); [reflexivity|].
  f_equal. lia.
Qed.

(** The total after the keyword loop is the sum of the counts of the listed
    keywords, each as often as it is listed. *)
Lemma scoreKeywords_total (keywords : list jsstring) :
  forall (hits : Record Z) (totalScore : Z),
    snd (fold_left (scoreKeyword up text) keywords
           (hits, totalScore))
    = (totalScore + sumZ (List.map (countOf up text) keywords))%Z.
Proof.
  induction keywords as [|k keywords IH]; intros hits totalScore; cbn
      [fold_left].
  - simpl. lia.
  - rewrite scoreKeyword_step, IH. simpl. lia.
Qed.

(** The hits after the keyword loop: the count of every listed keyword that
    occurs in the corpus. *)
Lemma scoreKeywords_hits (keywords : list jsstring) :
  forall (hits : Record Z) (totalScore : Z) (k : jsstring),
    obj_get (fst (fold_left (scoreKeyword up text) keywords
                    (hits, totalScore))) k
    = if existsb (str_eqb k) keywords && (0 <? countOf up text k)%Z
      then Some (countOf up text k) else obj_get hits k.
Proof.
  induction keywords as [|k0 keywords IH]; intros hits totalScore k; cbn
      [fold_left].
  - reflexivity.
  - rewrite scoreKeyword_step, IH. cbn [existsb].
    destruct (str_eqb k k0) eqn:E.
    + apply str_eqb_eq in E. subst k0.
      destruct (existsb (str_eqb k) keywords), (0 <? countOf up text k)%Z;
          simpl;
        try reflexivity.
      now rewrite obj_get_set_same.
    + simpl orb.
      destruct (existsb (str_eqb k) keywords && (0 <? countOf up text k)%Z);
        [reflexivity|].
      destruct (0 <? countOf up text k0)%Z; [|reflexivity].
      apply obj_get_set_other. apply str_eqb_neq in E. congruence.
Qed.

Lemma scoreKeywords_NoDup (keywords : list jsstring) :
  forall (hits : Record Z) (totalScore : Z),
    NoDup (List.map fst hits) ->
    NoDup (List.map fst
             (fst (fold_left (scoreKeyword up text) keywords
                     (hits, totalScore)))).
Proof.
  induction keywords as [|k keywords IH]; intros hits totalScore Hnd; cbn
      [fold_left].
  - assumption.
  - rewrite scoreKeyword_step. apply IH.
    destruct (0 <? countOf up text k)%Z;
        [now apply NoDup_keys_obj_set | assumption].
Qed.

(** Every recorded hit is the positive count of its keyword. *)
Lemma scoreKeywords_positive (keywords : list jsstring) :
  forall (hits : Record Z) (totalScore : Z),
    (forall k n, In (k, n) hits -> n = countOf up text k /\ (0 < n)%Z) ->
    forall k n,
      In (k, n) (fst (fold_left (scoreKeyword up text)
                        keywords (hits, totalScore))) ->
      n = countOf up text k /\ (0 < n)%Z.
Proof.
  induction keywords as [|k0 keywords IH]; intros hits totalScore Hpos; cbn
      [fold_left].
  - assumption.
  - rewrite scoreKeyword_step. apply IH.
    destruct (Z.ltb_spec 0 (countOf up text k0)) as [H0|H0]; [|assumption].
    intros k n Hin. apply In_obj_set in Hin as [[-> ->]|Hin].
    + split; [reflexivity | assumption].
    + now apply Hpos.
Qed.

(** The four facts for the loop as the service runs it, from empty hits and a
    total of 0. *)
Lemma scoreKeywords_spec (keywords : list jsstring) :
  snd (scoreKeywords up text keywords)
  = sumZ (List.map (countOf up text) keywords)
  /\ NoDup (List.map fst (fst (scoreKeywords up text keywords)))
  /\ (forall k n,
         In (k, n) (fst (scoreKeywords up text keywords)) ->
         n = countOf up text k /\ (0 < n)%Z)
  /\ (forall k,
         obj_get (fst (scoreKeywords up text keywords)) k
         = if existsb (str_eqb k) keywords && (0 <? countOf up text k)%Z
           then Some (countOf up text k) else None).
Proof.
  unfold scoreKeywords. split; [|split; [|split]].
  - now rewrite scoreKeywords_total.
  - apply scoreKeywords_NoDup. constructor.
  - apply scoreKeywords_positive. intros k n [].
  - intros k. now rewrite scoreKeywords_hits.
Qed.

(** The table loop pushes, category by category, what each contributes. *)
Lemma scoreTable_flat_map (table : Record (list jsstring)) :
  scoreTable up text table
  = flat_map (categoryResults up text) (Object_entries table).
Proof.
  unfold scoreTable.
  rewrite (fold_left_same
             (scoreCategory up text)
             (fun acc e => acc ++ categoryResults up text e)).
  - now rewrite fold_left_push.
  - intros results [g keywords]. unfold scoreCategory, categoryResults. simpl.
    destruct (scoreKeywords up text keywords) as [h t].
    destruct (0 <? t)%Z; [reflexivity | now rewrite app_nil_r].
Qed.

End Scoring.

(** ** The aggregate of all hits *)



Lemma fold_addHit_NoDup (entries : Record Z) :
  forall allHitsMap : Record Z,
    NoDup (List.map fst allHitsMap) ->
    NoDup (List.map fst (fold_left addHit entries allHitsMap)).
Proof.
  induction entries as [|[k0 c0] entries IH]; intros m Hnd; cbn [fold_left].
  - assumption.
  - apply IH. unfold addHit. now apply NoDup_keys_obj_set.
Qed.



Lemma fold_addHits_NoDup (results : list GenreResult) :
  forall allHitsMap : Record Z,
    NoDup (List.map fst allHitsMap) ->
    NoDup (List.map fst (fold_left addHits results allHitsMap)).
Proof.
  induction results as [|r results IH]; intros m Hnd; cbn [fold_left].
  - assumption.
  - apply IH. unfold addHits. now apply fold_addHit_NoDup.
Qed.



Section Categories.

Variable up : jsstring -> jsstring.
Variable text : jsstring.


(** What is known of a result that a category contributes. *)
Lemma categoryResults_In (e : jsstring * list jsstring) (r : GenreResult) :
  In r (categoryResults up text e) ->
  genre r = fst e
  /\ score r = sumZ (List.map (countOf up text) (snd e))
  /\ (0 < score r)%Z
  /\ NoDup (List.map fst (hits r))
  /\ (forall k n, In (k, n) (hits r) ->
                  n = countOf up text k /\ (0 < n)%Z)
  /\ (forall k, obj_get (hits r) k
                = if existsb (str_eqb k) (snd e)
                     && (0 <? countOf up text k)%Z
                  then Some (countOf up text k) else None).
Proof.
  unfold categoryResults.
  destruct (scoreKeywords_spec up text (snd e))
    as [Ht [Hnd [Hp Hh]]].
  destruct (scoreKeywords up text (snd e)) as [h t].
  simpl in Ht, Hh, Hnd, Hp.
  destruct (Z.ltb_spec 0 t) as [Hpos|Hle]; [|contradiction].
  intros [<-|[]]. simpl.
  split; [reflexivity|]. split; [assumption|]. split; [assumption|].
  split; [assumption|]. split; assumption.
Qed.



Lemma scoreTable_In (table : Record (list jsstring)) (r : GenreResult) :
  In r (scoreTable up text table)
  <-> exists e, In e (Object_entries table)
                /\ In r (categoryResults up text e).
Proof. rewrite scoreTable_flat_map. apply in_flat_map. Qed.

Lemma scoreTable_hits_NoDup (table : Record (list jsstring)) (r : GenreResult) :
  In r (scoreTable up text table) ->
  NoDup (List.map fst (hits r)).
Proof.
  intros H. apply scoreTable_In in H as [e [_ H]].
  now apply categoryResults_In in H.
Qed.



End Categories.

(** ** The order of the aggregate map *)





Lemma allHitsOf_Permutation (allHitsMap : Record Z) :
  Permutation (allHitsOf allHitsMap) (List.map toKeywordHit allHitsMap).
Proof.
  unfold allHitsOf. rewrite Array_sort_Permutation.
  apply Permutation_map. apply Object_entries_Permutation.
Qed.


Lemma allHitsOf_keys (allHitsMap : Record Z) :
  Permutation (List.map keyword (allHitsOf allHitsMap))
      (List.map fst allHitsMap).
Proof.
  rewrite (Permutation_map keyword (allHitsOf_Permutation allHitsMap)).
  rewrite map_map.
  rewrite (map_ext (fun x => keyword (toKeywordHit x)) fst); [reflexivity|].
  now intros [k n].
Qed.

(** ** The results of a run *)



Section Results.

Variable toUpperCase : jsstring -> jsstring.
Variable GENRE_KEYWORDS : Record (list jsstring).
Variable fullTextContent : jsstring.



End Results.



Section TableResults.

Variable up : jsstring -> jsstring.
Variable text : jsstring.

Lemma categoryResults_cases (e : jsstring * list jsstring) :
  (0 < totalOf up text e)%Z
  /\ (exists h, categoryResults up text e
                = [mkGenreResult (fst e) (totalOf up text e) h])
  \/ (totalOf up text e <= 0)%Z
     /\ categoryResults up text e = [].
Proof.
  unfold categoryResults, totalOf.
  destruct (scoreKeywords_spec up text (snd e)) as [Ht _].
  destruct (scoreKeywords up text (snd e)) as [h t].
  simpl in Ht. subst t.
  destruct (Z.ltb_spec 0
              (sumZ (List.map (countOf up text) (snd e)))).
  - left. split; [assumption | now exists h].
  - right. split; [assumption | reflexivity].
Qed.

(** The results of a table name the categories with a positive total, in the
    order of the table. *)
Lemma scoreTable_names (table : Record (list jsstring)) :
  List.map genre (scoreTable up text table)
  = List.map fst
      (filter (fun e => (0 <? totalOf up text e)%Z)
         (Object_entries table)).
Proof.
  rewrite scoreTable_flat_map.
  induction (Object_entries table) as [|e l IH]; [reflexivity|].
  cbn [flat_map filter]. rewrite map_app, IH.
  destruct (categoryResults_cases e) as [[Hpos [h ->]]|[Hle ->]].
  - apply Z.ltb_lt in Hpos. rewrite Hpos. reflexivity.
  - destruct (Z.ltb_spec 0 (totalOf up text e)); [lia|].
    reflexivity.
Qed.

Lemma scoreTable_positive (table : Record (list jsstring)) (r : GenreResult) :
  In r (scoreTable up text table) -> (0 < score r)%Z.
Proof.
  intros H. apply scoreTable_In in H as [e [_ H]].
  now apply categoryResults_In in H.
Qed.

Lemma totalOf_positive (e : jsstring * list jsstring) :
  (0 < totalOf up text e)%Z
  <-> exists k, In k (snd e) /\ (0 < countOf up text k)%Z.
Proof.
  unfold totalOf. rewrite sumZ_positive.
  - split.
    + intros [x [Hx Hpos]]. apply in_map_iff in Hx as [k [<- Hk]]. now exists k.
    + intros [k [Hk Hpos]]. exists (countOf up text k).
      split; [now apply in_map | assumption].
  - intros x Hx. apply in_map_iff in Hx as [k [<- _]]. apply countOf_nonneg.
Qed.

Lemma sorted_names (table : Record (list jsstring)) (name : jsstring) :
  In name (List.map genre
             (Array_sort byScoreDescending
                (scoreTable up text table)))
  <-> exists e, In e (Object_entries table) /\ fst e = name
                /\ (0 < totalOf up text e)%Z.
Proof.
  assert (P : Permutation
                (List.map genre
                   (Array_sort byScoreDescending
                      (scoreTable up text table)))
                (List.map genre (scoreTable up text table))).
  { apply Permutation_map, Array_sort_Permutation. }
  rewrite scoreTable_names in P. split.
  - intros H. apply (Permutation_in _ P) in H.
    apply in_map_iff in H as [e [He Hin]]. apply filter_In in Hin as [Hin Hpos].
    exists e. split; [assumption|]. split; [assumption|]. now apply Z.ltb_lt.
  - intros [e [Hin [He Hpos]]]. apply (Permutation_in _ (Permutation_sym P)).
    apply in_map_iff. exists e. split; [assumption|].
    apply filter_In. split; [assumption | now apply Z.ltb_lt].
Qed.

End TableResults.

Lemma distinctb_NoDup (l : list jsstring) : distinctb l = true -> NoDup l.
Proof.
  induction l as [|x l IH]; simpl; intros H; constructor.
  - apply andb_true_iff in H as [H _]. apply negb_true_iff in H.
    intros Hin. apply existsb_str_eqb in Hin. congruence.
  - apply IH. now apply andb_true_iff in H as [_ H].
Qed.

Section RunClaims.

Variable toUpperCase : jsstring -> jsstring.
Variable GENRE_KEYWORDS : Record (list jsstring).
Variable fullTextContent : jsstring.

(** C3, as the code has it.  A category of a table is in the returned
    sequence exactly when its total score is positive, that is, when one of
    its keywords occurs in the corpus; every returned result has a positive
    score, and a category with total score 0 is not returned. *)
Theorem category_returned_iff_positive_score :
  (forall name,
      In name (List.map genre
                 (genres (analyzeText toUpperCase GENRE_KEYWORDS
                     fullTextContent)))
      <-> exists e, In e (Object_entries GENRE_KEYWORDS) /\ fst e = name
                    /\ (0 < totalOf toUpperCase fullTextContent e)%Z)
  /\ (forall name,
         In name (List.map tag
                    (tags (analyzeText toUpperCase GENRE_KEYWORDS
                        fullTextContent)))
         <-> exists e, In e (Object_entries TAG_KEYWORDS) /\ fst e = name
                       /\ (0 < totalOf toUpperCase fullTextContent e)%Z)
  /\ (forall r,
         In r (genres (analyzeText toUpperCase GENRE_KEYWORDS fullTextContent))
         \/ In r (tags
             (analyzeText toUpperCase GENRE_KEYWORDS fullTextContent)) ->
         (0 < score r)%Z)
  /\ (forall e,
         (0 < totalOf toUpperCase fullTextContent e)%Z
         <-> exists k, In k (snd e)
                       /\ (0 < keywordCount toUpperCase fullTextContent k)%Z).
Proof.
  unfold analyzeText. cbn [genres tags].
  split; [intros name; apply sorted_names|].
  split; [intros name; apply sorted_names|].
  split; [|intros e; apply totalOf_positive].
  intros r [H|H];
    apply (Permutation_in _ (Array_sort_Permutation byScoreDescending _)) in H;
    now apply scoreTable_positive in H.
Qed.



End RunClaims.

(** The example of the specification for the aggregate: 3 hits in one result
    and 2 in another give one aggregate hit of 5. *)
Example aggregate_three_and_two :
  allHitsOf
    (allHitsMapOf
       [mkGenreResult (js "Fantasy") 3 [(js "magic", 3%Z)];
        mkGenreResult (js "Magic System") 2 [(js "magic", 2%Z)]])
  = [mkKeywordHit (js "magic") 5].
Proof. vm_compute. reflexivity. Qed.

(** In a run: "mature" is listed by the tags "Coming of Age" and "Mature /
    Adult Themes" and occurs once; the two hits are merged into one aggregate
    hit of 2. *)
Example keyword_of_two_tags_merged :
  allHits (analyzeText asciiTable [] (js "A mature tale."))
  = [mkKeywordHit (js "mature") 2].
Proof. vm_compute. reflexivity. Qed.

(** End-to-end scenario 1 of the specification, from the corpus on: one
    genre, with score 1 and the one hit "spell". *)
Example wizard_scenario :
  genres (analyzeText asciiTable
            [(js "Fantasy", [js "magic"; js "spell"])]
            (js "The wizard cast a spell of fire. "))
  = [mkGenreResult (js "Fantasy") 1 [(js "spell", 1%Z)]].
Proof. vm_compute. reflexivity. Qed.


(** C3 as stated fails: with the corpus of scenario 1 no keyword of the tag
    category "Dungeon Crawl" occurs, and the category is not among the
    returned tags. *)
Lemma zero_score_category_absent :
  In (js "Dungeon Crawl") (List.map fst (Object_entries TAG_KEYWORDS))
  /\ totalOf asciiTable (js "The wizard cast a spell of fire. ")
       (js "Dungeon Crawl",
        [js "dungeon"; js "labyrinth"; js "floor"; js "boss"; js "trap";
         js "loot"; js "minotaur"]) = 0%Z
  /\ ~ In (js "Dungeon Crawl")
         (List.map tag
            (tags (analyzeText asciiTable []
                     (js "The wizard cast a spell of fire. ")))).
Proof.
  split; [|split].
  - apply existsb_str_eqb. vm_compute. reflexivity.
  - vm_compute. reflexivity.
  - intros H. apply existsb_str_eqb in H. vm_compute in H. discriminate H.
Qed.



(** ** The manifest *)

Lemma isPrefixOf_includes (p s : jsstring) :
  isPrefixOf p s = true -> String_includes s p = true.
Proof. intros H. destruct s; simpl; now rewrite H. Qed.

(** A string that contains [c :: p] contains [p]. *)
Lemma String_includes_tail (c : code_unit) (p s : jsstring) :
  String_includes s (c :: p) = true -> String_includes s p = true.
Proof.
  induction s as [|x s IH]; simpl; [discriminate|].
  intros H. apply orb_true_iff in H as [H|H].
  - apply andb_true_iff in H as [_ H]. apply isPrefixOf_includes in H.
    rewrite H. apply orb_true_r.
  - rewrite (IH H). apply orb_true_r.
Qed.

(** The second test of the callback adds nothing: a media type that contains
    "xhtml" contains "html". *)
Lemma includes_xhtml_html (mediaType : jsstring) :
  String_includes mediaType (js "xhtml") = true ->
  String_includes mediaType (js "html") = true.
Proof. apply String_includes_tail. Qed.

Lemma collectItem_isTextDocument (manifestItems : Record jsstring)
    (item : Element) :
  collectItem manifestItems item
  = if isTextDocument item then
      match getAttribute item (js "id"), getAttribute item (js "href") with
      | Some id, Some href => obj_set manifestItems id href
      | _, _ => manifestItems
      end
    else manifestItems.
Proof.
  unfold collectItem, isTextDocument.
  destruct (getAttribute item (js "id")) as [id|]; [|reflexivity].
  destruct (getAttribute item (js "href")) as [href|];
    [|now rewrite andb_false_r].
  destruct (getAttribute item (js "media-type")) as [mediaType|].
  - destruct (String_includes mediaType (js "html")) eqn:Hh.
    + reflexivity.
    + destruct (String_includes mediaType (js "xhtml")) eqn:Hx;
        [|reflexivity].
      apply includes_xhtml_html in Hx. congruence.
  - reflexivity.
Qed.


(** Every href of the map is the href of a text document with that id. *)
Lemma fold_collectItem_href (items : list Element) :
  forall (manifestItems : Record jsstring) (id href : jsstring),
    obj_get (fold_left collectItem items manifestItems) id = Some href ->
    obj_get manifestItems id = Some href
    \/ exists item, In item items /\ isTextDocument item = true
                    /\ getAttribute item (js "id") = Some id
                    /\ getAttribute item (js "href") = Some href.
Proof.
  induction items as [|item items IH]; intros m id href; cbn [fold_left].
  - now left.
  - intros H. apply IH in H as [H|[item' [Hin H]]].
    + rewrite collectItem_isTextDocument in H.
      destruct (isTextDocument item) eqn:Ht; [|now left].
      destruct (getAttribute item (js "id")) as [id0|] eqn:Hid; [|now left].
      destruct (getAttribute item (js "href")) as [href0|] eqn:Hhref;
        [|now left].
      destruct (str_eqb id0 id) eqn:E.
      * apply str_eqb_eq in E. subst id0. rewrite obj_get_set_same in H.
        injection H as ->. right. exists item.
        split; [now left | now repeat split].
      * apply str_eqb_neq in E. rewrite obj_get_set_other in H by assumption.
        now left.
    + right. exists item'. split; [now right | assumption].
Qed.



(** ** Errors and the reading order *)

Lemma Set_has_In (s : list jsstring) (v : jsstring) :
  Set_has s v = true <-> In v s.
Proof. apply existsb_str_eqb. Qed.

Lemma Set_add_In (s : list jsstring) (v w : jsstring) :
  In w (Set_add s v) <-> In w s \/ w = v.
Proof.
  unfold Set_add. destruct (Set_has s v) eqn:E.
  - apply Set_has_In in E. split; [now left | intros [H| ->]; assumption].
  - rewrite in_app_iff. simpl. split.
    + intros [H|[H|[]]]; [now left | right; now symmetry].
    + intros [H|H]; [now left | right; left; now symmetry].
Qed.

Section ReadingOrder.

Variable body : jsstring -> option jsstring.
Variable url : jsstring -> jsstring -> option jsstring.
Variable zip : JSZip.
Variable items : Record jsstring.
Variable opf : jsstring.

Lemma spineLoop_nil (fullTextContent : jsstring) (seenPaths : list jsstring) :
  spineLoop body url zip items opf []
    fullTextContent seenPaths
  = Normal fullTextContent.
Proof. reflexivity. Qed.

(** One turn of the loop. *)
Lemma spineLoop_cons (idref : option jsstring) (more : list (option jsstring))
    (fullTextContent : jsstring) (seenPaths : list jsstring) :
  spineLoop body url zip items opf (idref :: more)
    fullTextContent seenPaths
  = match resolve url items opf idref with
    | Skipped =>
        spineLoop body url zip items opf more
          fullTextContent seenPaths
    | Failed e => Throw e
    | Resolved chapterFilePath =>
        if Set_has seenPaths chapterFilePath then
          spineLoop body url zip items opf more
            fullTextContent seenPaths
        else
          spineLoop body url zip items opf more
            (fullTextContent ++ chapterText body zip chapterFilePath)
            (Set_add seenPaths chapterFilePath)
    end.
Proof.
  cbn [spineLoop]. unfold resolve, chapterText.
  destruct idref as [id|]; [|reflexivity]. cbn [truthy].
  destruct (isEmpty id); [reflexivity|]. cbn [negb].
  destruct (obj_get items id) as [href|]; [|reflexivity].
  destruct (isEmpty href); [reflexivity|].
  destruct (chapterFilePathOf url opf href) as [p|e]; [|reflexivity].
  destruct (Set_has seenPaths p); [reflexivity|].
  destruct (zip_file zip p); [reflexivity | now rewrite app_nil_r].
Qed.

(** A reference that resolves like an earlier one changes nothing: when the
    earlier one was skipped so is this one, when it threw the loop never gets
    here, and when it had a path the path has been seen. *)
Lemma spineLoop_repeated (later : option jsstring)
    (after : list (option jsstring)) :
  forall (before : list (option jsstring)) (fullTextContent : jsstring)
         (seenPaths : list jsstring),
    (exists earlier, In earlier before /\ resolve url items opf earlier =
        resolve url items opf later)
    \/ (exists p, resolve url items opf later = Resolved p /\ In p seenPaths)
    \/ resolve url items opf later = Skipped ->
    spineLoop body url zip items opf
      (before ++ later :: after) fullTextContent seenPaths
    = spineLoop body url zip items opf
        (before ++ after) fullTextContent seenPaths.
Proof.
  induction before as [|x before IH]; intros text seen H.
  - simpl app. rewrite spineLoop_cons.
    destruct H as [[earlier [[] _]]|[[p [Hp Hin]]|Hs]].
    + rewrite Hp. apply Set_has_In in Hin. now rewrite Hin.
    + now rewrite Hs.
  - simpl app. rewrite !spineLoop_cons.
    assert (Hrest : forall text' seen',
               (forall p, In p seen -> In p seen') ->
               (forall p, resolve url items opf x = Resolved p -> In p seen') ->
               (forall e, resolve url items opf x <> Failed e) ->
               spineLoop body url zip items opf
                 (before ++ later :: after) text' seen'
               = spineLoop body url zip items opf
                   (before ++ after) text' seen').
    { intros text' seen' Hmono Hx Hnf. apply IH.
      destruct H as [[earlier [[<-|Hin] Heq]]|[[p [Hp Hin]]|Hs]].
      - destruct (resolve url items opf x) as [|p|e] eqn:Ex.
        + right. right. now symmetry.
        + right. left. exists p. split; [now symmetry | now apply Hx].
        + exfalso. now apply (Hnf e).
      - left. now exists earlier.
      - right. left. exists p. split; [assumption | now apply Hmono].
      - right. now right. }
    destruct (resolve url items opf x) as [|p|e] eqn:Ex.
    + apply Hrest; [tauto | discriminate | discriminate].
    + destruct (Set_has seen p) eqn:Hseen.
      * apply Hrest; [tauto | | discriminate].
        intros q [= <-]. now apply Set_has_In.
      * apply Hrest; [| | discriminate].
        -- intros q Hq. apply Set_add_In. now left.
        -- intros q [= <-]. apply Set_add_In. now right.
    + reflexivity.
Qed.

(** The loop throws what a reference throws, when none before it does. *)
Lemma spineLoop_failed (x : option jsstring) (e : Exception)
    (after : list (option jsstring)) :
  forall (before : list (option jsstring)) (fullTextContent : jsstring)
         (seenPaths : list jsstring),
    Forall (fun r => forall e', resolve url items opf r <> Failed e') before ->
    resolve url items opf x = Failed e ->
    spineLoop body url zip items opf
      (before ++ x :: after) fullTextContent seenPaths
    = Throw e.
Proof.
  induction before as [|y before IH]; intros text seen Hb Hx; simpl app;
    rewrite spineLoop_cons.
  - now rewrite Hx.
  - inversion Hb as [|? ? Hy Hb']; subst.
    destruct (resolve url items opf y) as [|p|e'] eqn:Ey.
    + now apply IH.
    + destruct (Set_has seen p); now apply IH.
    + exfalso. now apply (Hy e').
Qed.



End ReadingOrder.

(** ** Trimming and decoding *)

Lemma trimStart_nil (s : jsstring) :
  trimStart s = [] <-> forallb isWhiteSpace s = true.
Proof.
  induction s as [|c s IH]; simpl; [tauto|].
  destruct (isWhiteSpace c); simpl; [exact IH|].
  split; discriminate.
Qed.

Lemma trimStart_head (s : jsstring) (c : code_unit) (s' : jsstring) :
  trimStart s = c :: s' -> isWhiteSpace c = false.
Proof.
  induction s as [|x s IH]; simpl; [discriminate|].
  destruct (isWhiteSpace x) eqn:E; [exact IH|].
  now intros [= <- _].
Qed.

(** Trimming leaves nothing exactly when every character is white space. *)
Lemma String_trim_empty (s : jsstring) :
  isEmpty (String_trim s) = forallb isWhiteSpace s.
Proof.
  unfold String_trim. destruct (forallb isWhiteSpace s) eqn:E.
  - apply trimStart_nil in E. now rewrite E.
  - destruct (trimStart s) as [|c s'] eqn:Et.
    + apply trimStart_nil in Et. congruence.
    + apply trimStart_head in Et.
      destruct (trimStart (rev (c :: s'))) as [|d t] eqn:Er.
      * apply trimStart_nil in Er. rewrite forallb_forall in Er.
        assert (isWhiteSpace c = true)
          by (apply Er; apply -> in_rev; now left).
        congruence.
      * destruct (rev (d :: t)) eqn:Ev; [|reflexivity].
        apply (f_equal (@rev _)) in Ev. rewrite rev_involutive in Ev.
        discriminate Ev.
Qed.

(** A percent sign that two hexadecimal digits do not follow, such as a lone
    one, makes [decodeURIComponent] throw. *)
Lemma decodeURIComponent_malformed (pre post : jsstring) :
  forallb (fun c => negb (N.eqb c PERCENT)) pre = true ->
  malformedEscape post = true ->
  decodeURIComponent (pre ++ PERCENT :: post) = None.
Proof.
  unfold decodeURIComponent. intros Hpre Hpost.
  induction pre as [|c pre IH]; simpl app.
  - cbn [Decode]. rewrite N.eqb_refl.
    destruct post as [|h [|l post]]; try reflexivity.
    unfold malformedEscape in Hpost.
    destruct (hexByte h l); [discriminate | reflexivity].
  - simpl in Hpre. apply andb_true_iff in Hpre as [Hc Hpre].
    apply negb_true_iff in Hc. cbn [Decode]. rewrite Hc.
    now rewrite (IH Hpre).
Qed.

(** ** Whole runs *)

(** End-to-end scenario 1 of the specification. *)
Example wizardBook_analysis :
  option_map genres
    (match analyzeEpub asciiTable exampleParser exampleBodyText examplePathname
             [(js "Fantasy", [js "magic"; js "spell"])] wizardBook with
     | Normal result => Some result
     | Throw _ => None
     end)
  = Some [mkGenreResult (js "Fantasy") 1 [(js "spell", 1%Z)]].
Proof. vm_compute. reflexivity. Qed.

(** End-to-end scenario 3 of the specification. *)
Example missing_container :
  analyzeEpub asciiTable exampleParser exampleBodyText examplePathname []
    [(js "mimetype", js "application/epub+zip")]
  = Throw CONTAINER_NOT_FOUND.
Proof. reflexivity. Qed.

(** ** Locating the OPF file *)

Section Container.

Variable parseFromString : jsstring -> Document.


End Container.



(** ** Extracting the text *)

Section Extraction.

Variable bodyTextContent : jsstring -> option jsstring.
Variable URL_pathname : jsstring -> jsstring -> option jsstring.

(** C6.  The loop deduplicates by resolved archive path: a reference whose
    path an earlier reference of the reading order resolved to adds nothing,
    whatever its id, so the order with it and the order without it give the
    same corpus or the same error.  The order [[a, b, a]] gives what
    [[a, b]] gives; when [a] and [b] resolve to distinct paths that is the
    text of the file of [a] followed by the text of the file of [b]. *)
Theorem spine_deduplicates_by_path (zip : JSZip)
    (manifestItems : Record jsstring)
    (opfPath : jsstring) :
  (forall before after earlier later p fullTextContent seenPaths,
      In earlier before ->
      resolve URL_pathname manifestItems opfPath earlier = Resolved p ->
      resolve URL_pathname manifestItems opfPath later = Resolved p ->
      spineLoop bodyTextContent URL_pathname zip manifestItems opfPath
        (before ++ later :: after) fullTextContent seenPaths
      = spineLoop bodyTextContent URL_pathname zip manifestItems opfPath
          (before ++ after) fullTextContent seenPaths)
  /\ (forall a b fullTextContent seenPaths,
         spineLoop bodyTextContent URL_pathname zip manifestItems opfPath
           [a; b; a] fullTextContent seenPaths
         = spineLoop bodyTextContent URL_pathname zip manifestItems opfPath
             [a; b] fullTextContent seenPaths)
  /\ (forall a b pa pb,
         resolve URL_pathname manifestItems opfPath a = Resolved pa ->
         resolve URL_pathname manifestItems opfPath b = Resolved pb ->
         pa <> pb ->
         spineLoop bodyTextContent URL_pathname zip manifestItems opfPath
           [a; b; a] [] []
         = Normal (chapterText bodyTextContent zip pa
                   ++ chapterText bodyTextContent zip pb)).
Proof.
  split; [|split].
  - intros before after earlier later p text seen Hin He Hl.
    apply spineLoop_repeated. left. exists earlier.
    split; [assumption | congruence].
  - intros a b text seen.
    apply (spineLoop_repeated bodyTextContent URL_pathname zip manifestItems
             opfPath a [] [a; b]).
    left. exists a. split; [now left | reflexivity].
  - intros a b pa pb Ha Hb Hne.
    assert (E1 : str_eqb pb pa = false) by (apply str_eqb_neq; congruence).
    rewrite spineLoop_cons, Ha. cbn [Set_has Set_add existsb app].
    rewrite spineLoop_cons, Hb. cbn [Set_has Set_add existsb app].
    rewrite E1. cbn [orb app].
    rewrite spineLoop_cons, Ha.
    assert (E2 : Set_has (Set_add [pa] pb) pa = true).
    { apply Set_has_In, Set_add_In. left. now left. }
    rewrite E2. reflexivity.
Qed.

End Extraction.

Section Run.

Variable toUpperCase : jsstring -> jsstring.
Variable parseFromString : jsstring -> Document.
Variable bodyTextContent : jsstring -> option jsstring.
Variable URL_pathname : jsstring -> jsstring -> option jsstring.
Variable GENRE_KEYWORDS : Record (list jsstring).

Lemma analyzeEpub_extraction (zip : JSZip) (opfPath opfXmlStr : jsstring) :
  opfPathOf parseFromString zip = Normal opfPath ->
  zip_file zip opfPath = Some opfXmlStr ->
  analyzeEpub toUpperCase parseFromString bodyTextContent URL_pathname
    GENRE_KEYWORDS zip
  = match spineLoop bodyTextContent URL_pathname zip
            (manifestItemsOf (parseFromString opfXmlStr)) opfPath
            (spineRefsOf (parseFromString opfXmlStr)) [] [] with
    | Throw e => Throw e
    | Normal fullTextContent =>
        if forallb isWhiteSpace fullTextContent then Throw NO_TEXT_CONTENT
        else Normal (analyzeText toUpperCase GENRE_KEYWORDS fullTextContent)
    end.
Proof.
  intros H1 H2. unfold analyzeEpub, fullTextContentOf. rewrite H1, H2.
  destruct (spineLoop bodyTextContent URL_pathname zip
              (manifestItemsOf (parseFromString opfXmlStr)) opfPath
              (spineRefsOf (parseFromString opfXmlStr)) [] [])
    as [text|e]; [|reflexivity].
  rewrite String_trim_empty. destruct (forallb isWhiteSpace text); reflexivity.
Qed.



(** C10.  When a reference of the reading order that the loop reaches has a
    manifest href whose resolved path does not percent-decode, the run throws
    the [URIError] of [decodeURIComponent], which is none of the errors the
    specification names; the reference is not skipped.  A percent sign that
    two hexadecimal digits do not follow, a lone one for instance, is such a
    path. *)
Theorem malformed_escape_throws_URIError (zip : JSZip)
    (opfPath opfXmlStr id href pathname : jsstring)
    (before after : list (option jsstring)) :
  opfPathOf parseFromString zip = Normal opfPath ->
  zip_file zip opfPath = Some opfXmlStr ->
  spineRefsOf (parseFromString opfXmlStr) = before ++ Some id :: after ->
  Forall (fun r => forall e,
              resolve URL_pathname (manifestItemsOf (parseFromString opfXmlStr))
                opfPath r <> Failed e) before ->
  obj_get (manifestItemsOf (parseFromString opfXmlStr)) id = Some href ->
  URL_pathname href opfPath = Some pathname ->
  decodeURIComponent (beforeHash (substring1 pathname)) = None ->
  analyzeEpub toUpperCase parseFromString bodyTextContent URL_pathname
    GENRE_KEYWORDS zip = Throw URIError
  /\ errorKind URIError = None
  /\ (forall pre post,
         forallb (fun c => negb (N.eqb c PERCENT)) pre = true ->
         malformedEscape post = true ->
         decodeURIComponent (pre ++ PERCENT :: post) = None).
Proof.
  intros H1 H2 Hspine Hbefore Hid Hurl Hdec.
  split; [|split; [reflexivity | apply decodeURIComponent_malformed]].
  rewrite (analyzeEpub_extraction zip opfPath opfXmlStr H1 H2), Hspine.
  rewrite (spineLoop_failed bodyTextContent URL_pathname zip
             (manifestItemsOf (parseFromString opfXmlStr)) opfPath
             (Some id) URIError); [reflexivity | assumption |].
  pose proof Hid as Hitem. unfold manifestItemsOf in Hitem.
  apply fold_collectItem_href in Hitem
    as [Hitem|[item [_ [Ht [Hi Hh]]]]]; [discriminate Hitem|].
  unfold isTextDocument in Ht. rewrite Hi, Hh in Ht.
  apply andb_true_iff in Ht as [Ht _]. apply andb_true_iff in Ht as [Ti Th].
  simpl in Ti, Th. apply negb_true_iff in Ti, Th.
  unfold resolve. rewrite Ti, Hid, Th.
  unfold chapterFilePathOf. now rewrite Hurl, Hdec.
Qed.

End Run.


Lemma malformed_escape_throws_URIError_witness :
  opfPathOf exampleParser percentBook = Normal (js "OEBPS/content.opf")
  /\ zip_file percentBook (js "OEBPS/content.opf") = Some percentOpfXml
  /\ examplePathname (js "100%.xhtml") (js "OEBPS/content.opf")
     = Some (js "/OEBPS/100%.xhtml")
  /\ decodeURIComponent (js "OEBPS/100%.xhtml") = None
  /\ analyzeEpub asciiTable exampleParser exampleBodyText examplePathname []
       percentBook = Throw URIError.
Proof.
  assert (H1 : opfPathOf exampleParser percentBook = Normal
      (js "OEBPS/content.opf"))
    by (vm_compute; reflexivity).
  assert (H2 : zip_file percentBook (js "OEBPS/content.opf") = Some
      percentOpfXml)
    by (vm_compute; reflexivity).
  assert (H3 : examplePathname (js "100%.xhtml") (js "OEBPS/content.opf")
               = Some (js "/OEBPS/100%.xhtml"))
    by (vm_compute; reflexivity).
  assert (H4 : decodeURIComponent (js "OEBPS/100%.xhtml") = None)
    by (vm_compute; reflexivity).
  split; [exact H1|]. split; [exact H2|]. split; [exact H3|]. split;
      [exact H4|].
  apply (malformed_escape_throws_URIError asciiTable exampleParser
           exampleBodyText examplePathname [] percentBook
           (js "OEBPS/content.opf") percentOpfXml (js "ch1") (js "100%.xhtml")
           (js "/OEBPS/100%.xhtml") [] []).
  - exact H1.
  - exact H2.
  - vm_compute. reflexivity.
  - constructor.
  - vm_compute. reflexivity.
  - exact H3.
  - exact H4.
Defined.

(** Two ids of one file: "ch%31.xhtml" decodes to "ch1.xhtml".  The reading
    order [[a; b; alias]] gives the corpus of [[a; b]]. *)
Lemma spine_deduplicates_by_path_witness :
  resolve examplePathname
    [(js "a", js "ch1.xhtml"); (js "b", js "ch2.xhtml");
     (js "alias", js "ch%31.xhtml")]
    (js "OEBPS/content.opf") (Some (js "a"))
  = Resolved (js "OEBPS/ch1.xhtml")
  /\ resolve examplePathname
       [(js "a", js "ch1.xhtml"); (js "b", js "ch2.xhtml");
        (js "alias", js "ch%31.xhtml")]
       (js "OEBPS/content.opf") (Some (js "alias"))
     = Resolved (js "OEBPS/ch1.xhtml")
  /\ spineLoop exampleBodyText examplePathname
       [(js "OEBPS/ch1.xhtml", js "<p>One</p>");
        (js "OEBPS/ch2.xhtml", js "<p>Two</p>")]
       [(js "a", js "ch1.xhtml"); (js "b", js "ch2.xhtml");
        (js "alias", js "ch%31.xhtml")]
       (js "OEBPS/content.opf")
       ([Some (js "a"); Some (js "b")] ++ Some (js "alias") :: []) [] []
     = spineLoop exampleBodyText examplePathname
         [(js "OEBPS/ch1.xhtml", js "<p>One</p>");
          (js "OEBPS/ch2.xhtml", js "<p>Two</p>")]
         [(js "a", js "ch1.xhtml"); (js "b", js "ch2.xhtml");
          (js "alias", js "ch%31.xhtml")]
         (js "OEBPS/content.opf")
         ([Some (js "a"); Some (js "b")] ++ []) [] [].
Proof.
  assert (Ha : resolve examplePathname
                 [(js "a", js "ch1.xhtml"); (js "b", js "ch2.xhtml");
                  (js "alias", js "ch%31.xhtml")]
                 (js "OEBPS/content.opf") (Some (js "a"))
               = Resolved (js "OEBPS/ch1.xhtml"))
    by (vm_compute; reflexivity).
  assert (Hl : resolve examplePathname
                 [(js "a", js "ch1.xhtml"); (js "b", js "ch2.xhtml");
                  (js "alias", js "ch%31.xhtml")]
                 (js "OEBPS/content.opf") (Some (js "alias"))
               = Resolved (js "OEBPS/ch1.xhtml"))
    by (vm_compute; reflexivity).
  split; [exact Ha|]. split; [exact Hl|].
  apply (proj1 (spine_deduplicates_by_path exampleBodyText examplePathname
                  [(js "OEBPS/ch1.xhtml", js "<p>One</p>");
                   (js "OEBPS/ch2.xhtml", js "<p>Two</p>")]
                  [(js "a", js "ch1.xhtml"); (js "b", js "ch2.xhtml");
                   (js "alias", js "ch%31.xhtml")]
                  (js "OEBPS/content.opf"))
           [Some (js "a"); Some (js "b")] [] (Some (js "a")) (Some (js "alias"))
           (js "OEBPS/ch1.xhtml") [] []).
  - left. reflexivity.
  - exact Ha.
  - exact Hl.
Defined.

(** ** How many matches a corpus can hold *)

Section CountBounds.

Variable up : jsstring -> jsstring.

Lemma matchTerms_keyword_length (keyword : jsstring) :
  forall (prev : option code_unit) (rest : jsstring) (n : nat),
    matchTerms up (List.map keywordTerm keyword) prev rest = Some n ->
    n = List.length keyword /\ n <= List.length rest.
Proof.
  induction keyword as [|k keyword IH]; intros prev rest n H.
  - injection H as <-. simpl. lia.
  - cbn [List.map matchTerms] in H.
    assert (Hone : matchTerm up (keywordTerm k) prev rest = None
                   \/ matchTerm up (keywordTerm k) prev rest = Some 1
                      /\ exists x rest', rest = x :: rest').
    { unfold keywordTerm. destruct (N.eqb k ASTERISK); cbn [matchTerm];
        (destruct rest as [|x rest']; [now left|]);
        match goal with
        | |- context [if ?b then _ else _] => destruct b
        end; (now left) || (right; split; [reflexivity | now exists x, rest']).
    }
    destruct Hone as [E|[E [x [rest' ->]]]]; rewrite E in H; [discriminate|].
    cbn [advance] in H.
    destruct (matchTerms up (List.map keywordTerm keyword) (Some x) rest')
      as [m|] eqn:Em; [|discriminate].
    injection H as <-. apply IH in Em. simpl. lia.
Qed.

Lemma matchTerms_pattern_length (keyword : jsstring)
    (prev : option code_unit) (rest : jsstring) (n : nat) :
  matchTerms up (AssertWordBoundary :: List.map keywordTerm keyword) prev rest
  = Some n ->
  n = List.length keyword /\ n <= List.length rest.
Proof.
  cbn [matchTerms matchTerm].
  destruct (xorb (IsWordChar prev) (IsWordChar (hd_error rest)));
    [|discriminate].
  cbn [advance].
  destruct (matchTerms up (List.map keywordTerm keyword) prev rest)
    as [m|] eqn:Em; [|discriminate].
  intros [= <-]. now apply matchTerms_keyword_length in Em.
Qed.

(** The matches lie side by side: each takes as many code units as the
    keyword has, and the search resumes behind it. *)
Lemma matchCount_disjoint (keyword : jsstring) :
  forall (rest : jsstring) (prev : option code_unit) (skip : nat),
    skip <= List.length rest ->
    matchCount up (AssertWordBoundary :: List.map keywordTerm keyword)
      prev rest skip * List.length keyword + skip
    <= List.length rest.
Proof.
  induction rest as [|x rest IH]; intros prev skip Hskip.
  - simpl in Hskip. assert (skip = 0) by lia. subst skip.
    cbn [matchCount].
    destruct (matchTerms up _ prev []) as [n|] eqn:E; [|simpl; lia].
    apply matchTerms_pattern_length in E. simpl in E. simpl. lia.
  - destruct skip as [|k]; cbn [matchCount].
    + destruct (matchTerms up _ prev (x :: rest)) as [n|] eqn:E.
      * apply matchTerms_pattern_length in E as [-> Hn]. simpl in Hn.
        specialize (IH (Some x) (Nat.pred (List.length keyword))).
        simpl List.length.
        destruct (List.length keyword) as [|L]; [lia|].
        simpl Nat.pred in *. specialize (IH ltac:(lia)). lia.
      * specialize (IH (Some x) 0 ltac:(lia)). simpl List.length. lia.
    + simpl in Hskip. specialize (IH (Some x) k ltac:(lia)).
      simpl List.length. lia.
Qed.

Lemma matchCount_positions (ts : list Term) :
  forall (rest : jsstring) (prev : option code_unit) (skip : nat),
    matchCount up ts prev rest skip <= S (List.length rest).
Proof.
  induction rest as [|x rest IH]; intros prev skip.
  - destruct skip; cbn [matchCount]; [|simpl; lia].
    destruct (matchTerms up ts prev []); simpl; lia.
  - destruct skip as [|k]; cbn [matchCount].
    + destruct (matchTerms up ts prev (x :: rest)) as [n|].
      * specialize (IH (Some x) (Nat.pred n)). simpl List.length. lia.
      * specialize (IH (Some x) 0). simpl List.length. lia.
    + specialize (IH (Some x) k). simpl List.length. lia.
Qed.

(** X1.  The matches of a keyword do not overlap: each takes as many code
    units as the keyword is long and the search resumes behind it, so the
    count times the length of the keyword is at most the length of the
    corpus.  The count is never negative and, for the empty keyword too, at
    most the number of positions of the corpus. *)
Theorem keyword_matches_do_not_overlap (fullTextContent keyword : jsstring) :
  (0 <= keywordCount up fullTextContent keyword)%Z
  /\ (keywordCount up fullTextContent keyword
      * Z.of_nat (List.length keyword)
      <= Z.of_nat (List.length fullTextContent))%Z
  /\ (keywordCount up fullTextContent keyword
      <= Z.of_nat (List.length fullTextContent) + 1)%Z.
Proof.
  unfold keywordCount. rewrite RegExp_keyword_pattern.
  pose proof (matchCount_disjoint keyword fullTextContent None 0
                ltac:(lia)) as D.
  pose proof (matchCount_positions
                (AssertWordBoundary :: List.map keywordTerm keyword)
                fullTextContent None 0) as P.
  split; [lia|]. split; [nia | lia].
Qed.

(** No word boundary, no match. *)
Lemma matchCount_no_word_character (ts : list Term) :
  forall (rest : jsstring) (prev : option code_unit) (skip : nat),
    IsWordChar prev = false ->
    forallb (fun c => negb (isWordChar c)) rest = true ->
    matchCount up (AssertWordBoundary :: ts) prev rest skip = 0.
Proof.
  induction rest as [|x rest IH]; intros prev skip Hp Hr.
  - destruct skip; cbn [matchCount matchTerms matchTerm]; [|reflexivity].
    rewrite Hp. reflexivity.
  - simpl in Hr. apply andb_true_iff in Hr as [Hx Hr].
    apply negb_true_iff in Hx.
    destruct skip as [|k]; cbn [matchCount matchTerms matchTerm].
    + rewrite Hp. cbn [hd_error IsWordChar]. rewrite Hx. cbn [xorb].
      now apply IH.
    + now apply IH.
Qed.

Lemma keywordCount_no_word_character (fullTextContent keyword : jsstring) :
  forallb (fun c => negb (isWordChar c)) fullTextContent = true ->
  keywordCount up fullTextContent keyword = 0%Z.
Proof.
  intros H. unfold keywordCount. rewrite RegExp_keyword_pattern.
  now rewrite matchCount_no_word_character.
Qed.

Lemma scoreTable_no_word_character (fullTextContent : jsstring)
    (table : Record (list jsstring)) :
  forallb (fun c => negb (isWordChar c)) fullTextContent = true ->
  scoreTable up fullTextContent table = [].
Proof.
  intros H. rewrite scoreTable_flat_map.
  induction (Object_entries table) as [|e l IH]; [reflexivity|].
  simpl flat_map. rewrite IH, app_nil_r.
  destruct (categoryResults_cases up fullTextContent e) as [[Hpos _]|[_ E]];
    [|exact E].
  apply totalOf_positive in Hpos as [k [_ Hk]]. unfold countOf in Hk.
  rewrite keywordCount_no_word_character in Hk by assumption. lia.
Qed.

End CountBounds.

(** X2.  A corpus without a word character (a letter a to z or A to Z, a
    digit, the underscore) has no word boundary, so no keyword is found in
    it, whatever the keyword and the case table: every count is 0 and the
    analysis has no genre, no tag and no hit.  Text in another script than
    the Latin one is such a corpus. *)
Theorem no_word_character_no_hits (toUpperCase : jsstring -> jsstring)
    (GENRE_KEYWORDS : Record (list jsstring)) (fullTextContent : jsstring) :
  forallb (fun c => negb (isWordChar c)) fullTextContent = true ->
  (forall keyword, keywordCount toUpperCase fullTextContent keyword = 0%Z)
  /\ analyzeText toUpperCase GENRE_KEYWORDS fullTextContent
     = mkAnalysisResult [] [] [].
Proof.
  intros H. split.
  - intros keyword. now apply keywordCount_no_word_character.
  - unfold analyzeText. rewrite !scoreTable_no_word_character by assumption.
    reflexivity.
Qed.

(** The three code units are U+9B54, U+6CD5 and the ideographic full stop:
    the word for magic, in Chinese. *)
Lemma no_word_character_no_hits_witness :
  forallb (fun c => negb (isWordChar c)) [39764; 27861; 12290]%N = true
  /\ keywordCount asciiTable [39764; 27861; 12290]%N [39764; 27861]%N = 0%Z
  /\ analyzeText asciiTable [] [39764; 27861; 12290]%N
     = mkAnalysisResult [] [] [].
Proof.
  split; [reflexivity|].
  split;
    apply (no_word_character_no_hits asciiTable [] [39764; 27861; 12290]%N
             eq_refl).
Defined.

(** ** The case of letters *)

Lemma asciiUpper_idempotent (c : code_unit) :
  asciiUpper (asciiUpper c) = asciiUpper c.
Proof.
  unfold asciiUpper.
  destruct ((97 <=? c)%N && (c <=? 122)%N) eqn:E; [|now rewrite E].
  apply andb_true_iff in E as [E1 E2].
  apply N.leb_le in E1. apply N.leb_le in E2.
  destruct (N.leb_spec 97 (c - 32)); [lia | reflexivity].
Qed.

Lemma asciiUpper_asterisk (c : code_unit) :
  N.eqb (asciiUpper c) ASTERISK = N.eqb c ASTERISK.
Proof.
  unfold asciiUpper, ASTERISK.
  destruct ((97 <=? c)%N && (c <=? 122)%N) eqn:E; [|reflexivity].
  apply andb_true_iff in E as [E1 E2].
  apply N.leb_le in E1. apply N.leb_le in E2.
  destruct (N.eqb_spec (c - 32) 42); destruct (N.eqb_spec c 42);
    try reflexivity; lia.
Qed.

Section LetterCase.

Variable up : jsstring -> jsstring.
Hypothesis Hup : UpperCasesAscii up.

Lemma Canonicalize_asciiUpper (c : code_unit) :
  Canonicalize up (asciiUpper c) = Canonicalize up c.
Proof.
  destruct (N.ltb_spec c 128) as [Hc|Hc].
  - rewrite !(Canonicalize_ascii up Hup);
      [apply asciiUpper_idempotent | assumption | now apply asciiUpper_ascii].
  - unfold asciiUpper.
    destruct ((97 <=? c)%N && (c <=? 122)%N) eqn:E; [|reflexivity].
    apply andb_true_iff in E as [_ E]. apply N.leb_le in E. lia.
Qed.

Lemma keywordCharMatches_asciiUpper (k x : code_unit) :
  keywordCharMatches up (asciiUpper k) x = keywordCharMatches up k x
  /\ keywordCharMatches up k (asciiUpper x) = keywordCharMatches up k x.
Proof.
  unfold keywordCharMatches. rewrite asciiUpper_asterisk.
  rewrite !Canonicalize_asciiUpper, isWordChar_asciiUpper. now split.
Qed.

Lemma beginsWith_asciiUpper (keyword : jsstring) :
  forall text : jsstring,
    beginsWith up (List.map asciiUpper keyword) text
    = beginsWith up keyword text
    /\ beginsWith up keyword (List.map asciiUpper text)
       = beginsWith up keyword text.
Proof.
  induction keyword as [|k keyword IH]; intros [|x text]; simpl;
    try (split; reflexivity).
  destruct (keywordCharMatches_asciiUpper k x) as [-> ->].
  destruct (IH text) as [-> ->]. now split.
Qed.

Lemma keywordOccurs_asciiUpper (keyword : jsstring) (prev : option code_unit)
    (rest : jsstring) :
  keywordOccurs up (List.map asciiUpper keyword) prev rest
  = keywordOccurs up keyword prev rest
  /\ keywordOccurs up keyword (option_map asciiUpper prev)
       (List.map asciiUpper rest)
     = keywordOccurs up keyword prev rest.
Proof.
  unfold keywordOccurs, atWordBoundary.
  destruct (beginsWith_asciiUpper keyword rest) as [-> ->].
  split; [reflexivity|]. f_equal. f_equal.
  - destruct prev as [p|]; [|reflexivity]. apply isWordChar_asciiUpper.
  - destruct rest as [|x rest]; [reflexivity|]. apply isWordChar_asciiUpper.
Qed.

Lemma countOccurrences_asciiUpper (keyword : jsstring) :
  forall (rest : jsstring) (prev : option code_unit) (skip : nat),
    countOccurrences up (List.map asciiUpper keyword) prev rest skip
    = countOccurrences up keyword prev rest skip
    /\ countOccurrences up keyword (option_map asciiUpper prev)
         (List.map asciiUpper rest) skip
       = countOccurrences up keyword prev rest skip.
Proof.
  induction rest as [|x rest IH]; intros prev skip.
  - destruct skip as [|k]; cbn [List.map countOccurrences];
      [|split; reflexivity].
    destruct (keywordOccurs_asciiUpper keyword prev []) as [-> E].
    cbn [List.map] in E. rewrite E. split; reflexivity.
  - destruct skip as [|k]; cbn [List.map countOccurrences].
    + destruct (keywordOccurs_asciiUpper keyword prev (x :: rest)) as [-> E].
      cbn [List.map] in E. rewrite E. rewrite length_map.
      destruct (IH (Some x) (Nat.pred (List.length keyword))) as [-> E1].
      destruct (IH (Some x) 0) as [-> E2].
      cbn [option_map] in E1, E2. rewrite E1, E2. split; reflexivity.
    + destruct (IH (Some x) k) as [-> E1]. cbn [option_map] in E1.
      rewrite E1. split; reflexivity.
Qed.

Lemma keywordCount_asciiUpper (fullTextContent keyword : jsstring) :
  keywordCount up fullTextContent (List.map asciiUpper keyword)
  = keywordCount up fullTextContent keyword
  /\ keywordCount up (List.map asciiUpper fullTextContent) keyword
     = keywordCount up fullTextContent keyword.
Proof.
  rewrite !(keywordCount_countOccurrences up Hup).
  destruct (countOccurrences_asciiUpper keyword fullTextContent None 0)
    as [-> E].
  cbn [option_map] in E. rewrite E. split; reflexivity.
Qed.

End LetterCase.

(** The analysis reads the corpus through the counts of the keywords only. *)
Lemma analyzeText_counts (up : jsstring -> jsstring)
    (GENRE_KEYWORDS : Record (list jsstring)) (text1 text2 : jsstring) :
  (forall keyword,
      keywordCount up text1 keyword = keywordCount up text2 keyword) ->
  analyzeText up GENRE_KEYWORDS text1 = analyzeText up GENRE_KEYWORDS text2.
Proof.
  intros H.
  assert (K : forall state k,
             scoreKeyword up text1 state k = scoreKeyword up text2 state k).
  { intros [hits total] k. unfold scoreKeyword. now rewrite H. }
  assert (C : forall results e,
             scoreCategory up text1 results e
             = scoreCategory up text2 results e).
  { intros results [name keywords].
    assert (S : scoreKeywords up text1 keywords
                = scoreKeywords up text2 keywords)
      by (unfold scoreKeywords; now apply fold_left_same).
    unfold scoreCategory. now rewrite S. }
  assert (T : forall table,
             scoreTable up text1 table = scoreTable up text2 table).
  { intros table. unfold scoreTable. now apply fold_left_same. }
  unfold analyzeText. now rewrite !T.
Qed.

(** X3.  Scoring ignores the case of the ASCII letters, in the corpus and in
    the keyword: upper-casing either leaves every count as it is, two corpora
    with the same upper-casing and two keywords with the same upper-casing
    give the same count, and two such corpora the same analysis. *)
Theorem scoring_ignores_ascii_case (toUpperCase : jsstring -> jsstring)
    (Hup : UpperCasesAscii toUpperCase) :
  (forall fullTextContent keyword,
      keywordCount toUpperCase (List.map asciiUpper fullTextContent) keyword
      = keywordCount toUpperCase fullTextContent keyword)
  /\ (forall fullTextContent keyword,
         keywordCount toUpperCase fullTextContent (List.map asciiUpper keyword)
         = keywordCount toUpperCase fullTextContent keyword)
  /\ (forall text1 text2 keyword1 keyword2,
         List.map asciiUpper text1 = List.map asciiUpper text2 ->
         List.map asciiUpper keyword1 = List.map asciiUpper keyword2 ->
         keywordCount toUpperCase text1 keyword1
         = keywordCount toUpperCase text2 keyword2)
  /\ (forall GENRE_KEYWORDS text1 text2,
         List.map asciiUpper text1 = List.map asciiUpper text2 ->
         analyzeText toUpperCase GENRE_KEYWORDS text1
         = analyzeText toUpperCase GENRE_KEYWORDS text2).
Proof.
  assert (A : forall text1 text2 keyword1 keyword2,
             List.map asciiUpper text1 = List.map asciiUpper text2 ->
             List.map asciiUpper keyword1 = List.map asciiUpper keyword2 ->
             keywordCount toUpperCase text1 keyword1
             = keywordCount toUpperCase text2 keyword2).
  { intros t1 t2 k1 k2 Et Ek.
    rewrite <- (proj2 (keywordCount_asciiUpper toUpperCase Hup t1 k1)).
    rewrite <- (proj1 (keywordCount_asciiUpper toUpperCase Hup _ k1)).
    rewrite Et, Ek.
    rewrite (proj1 (keywordCount_asciiUpper toUpperCase Hup _ k2)).
    apply (proj2 (keywordCount_asciiUpper toUpperCase Hup t2 k2)). }
  split; [intros; apply (keywordCount_asciiUpper toUpperCase Hup)|].
  split; [intros; apply (keywordCount_asciiUpper toUpperCase Hup)|].
  split; [exact A|].
  intros G t1 t2 Et. apply analyzeText_counts. intros k. now apply A.
Qed.

Lemma scoring_ignores_ascii_case_witness :
  UpperCasesAscii asciiTable
  /\ keywordCount asciiTable (List.map asciiUpper (js "Magical forest"))
       (js "magic")
     = keywordCount asciiTable (js "Magical forest") (js "magic").
Proof.
  split.
  - intros c _. reflexivity.
  - apply (proj1 (scoring_ignores_ascii_case asciiTable
                    (fun c _ => eq_refl))).
Defined.

(** ** A keyword and its extensions *)

Section Extensions.

Variable up : jsstring -> jsstring.

Lemma beginsWith_app (keyword suffix : jsstring) :
  forall text : jsstring,
    beginsWith up (keyword ++ suffix) text = true ->
    beginsWith up keyword text = true.
Proof.
  induction keyword as [|k keyword IH]; intros text H; [reflexivity|].
  destruct text as [|x text]; [discriminate H|].
  simpl in H |- *. apply andb_true_iff in H as [-> H]. now apply IH.
Qed.

Lemma keywordOccurs_app (keyword suffix : jsstring) (prev : option code_unit)
    (rest : jsstring) :
  keywordOccurs up (keyword ++ suffix) prev rest = true ->
  keywordOccurs up keyword prev rest = true.
Proof.
  unfold keywordOccurs. intros H. apply andb_true_iff in H as [-> H].
  now apply beginsWith_app in H.
Qed.

(** The search for the shorter keyword is never behind the search for the
    longer one: with no more code units to skip it finds at least as many
    matches, and with at most one match length more to skip, at most one
    fewer. *)
Lemma countOccurrences_app (keyword suffix : jsstring) :
  forall (rest : jsstring) (prev : option code_unit) (s1 s2 : nat),
    (s1 <= s2 ->
     countOccurrences up (keyword ++ suffix) prev rest s2
     <= countOccurrences up keyword prev rest s1)
    /\ (s1 <= s2 + List.length (keyword ++ suffix) ->
        countOccurrences up (keyword ++ suffix) prev rest s2
        <= S (countOccurrences up keyword prev rest s1)).
Proof.
  assert (HL : List.length keyword <= List.length (keyword ++ suffix))
    by (rewrite length_app; lia).
  set (L1 := List.length keyword) in *.
  set (L2 := List.length (keyword ++ suffix)) in *.
  induction rest as [|x rest IH]; intros prev s1 s2.
  - split; intros Hs.
    + destruct s2 as [|s2]; cbn [countOccurrences]; [|lia].
      assert (s1 = 0) by lia. subst s1. cbn [countOccurrences].
      destruct (keywordOccurs up (keyword ++ suffix) prev []) eqn:E; [|lia].
      apply keywordOccurs_app in E. now rewrite E.
    + destruct s2 as [|s2]; cbn [countOccurrences]; [|lia].
      destruct (keywordOccurs up (keyword ++ suffix) prev []); lia.
  - assert (A : forall a b, a <= b ->
                 countOccurrences up (keyword ++ suffix) (Some x) rest b
                 <= countOccurrences up keyword (Some x) rest a)
      by (intros a b; apply IH).
    assert (B : forall a b, a <= b + L2 ->
                 countOccurrences up (keyword ++ suffix) (Some x) rest b
                 <= S (countOccurrences up keyword (Some x) rest a))
      by (intros a b; apply IH).
    split; intros Hs.
    + destruct s2 as [|s2], s1 as [|s1]; cbn [countOccurrences];
        fold L1; fold L2; try lia.
      * destruct (keywordOccurs up (keyword ++ suffix) prev (x :: rest)) eqn:E.
        -- apply keywordOccurs_app in E. rewrite E.
           apply le_n_S, A. lia.
        -- destruct (keywordOccurs up keyword prev (x :: rest)).
           ++ apply B. lia.
           ++ apply A. lia.
      * destruct (keywordOccurs up keyword prev (x :: rest)).
        -- apply B. lia.
        -- apply A. lia.
      * apply A. lia.
    + destruct s2 as [|s2], s1 as [|s1]; cbn [countOccurrences];
        fold L1; fold L2.
      * destruct (keywordOccurs up (keyword ++ suffix) prev (x :: rest)) eqn:E.
        -- apply keywordOccurs_app in E. rewrite E.
           apply le_n_S, le_S, A. lia.
        -- destruct (keywordOccurs up keyword prev (x :: rest)).
           ++ apply le_S, B. lia.
           ++ apply le_S, A. lia.
      * destruct (keywordOccurs up (keyword ++ suffix) prev (x :: rest)).
        -- apply le_n_S, A. lia.
        -- apply B. lia.
      * destruct (keywordOccurs up keyword prev (x :: rest)).
        -- apply le_S, B. lia.
        -- apply le_S, A. lia.
      * apply B. lia.
Qed.

End Extensions.

(** X4.  A keyword that extends another one is found no more often: every
    match of [keyword ++ suffix] begins with a match of [keyword], and the
    left-to-right search for the shorter keyword never falls behind the
    search for the longer one. *)
Theorem longer_keyword_counts_no_more (toUpperCase : jsstring -> jsstring)
    (Hup : UpperCasesAscii toUpperCase)
    (fullTextContent keyword suffix : jsstring) :
  (keywordCount toUpperCase fullTextContent (keyword ++ suffix)
   <= keywordCount toUpperCase fullTextContent keyword)%Z.
Proof.
  rewrite !(keywordCount_countOccurrences toUpperCase Hup).
  apply inj_le.
  apply (countOccurrences_app toUpperCase keyword suffix fullTextContent None
           0 0). lia.
Qed.

Lemma longer_keyword_counts_no_more_witness :
  UpperCasesAscii asciiTable
  /\ (keywordCount asciiTable (js "The mecha and the mechanic.")
        (js "mech" ++ js "a")
      <= keywordCount asciiTable (js "The mecha and the mechanic.")
           (js "mech"))%Z.
Proof.
  split.
  - intros c _. reflexivity.
  - apply (longer_keyword_counts_no_more asciiTable (fun c _ => eq_refl)).
Defined.

(** ** Keywords that begin with another character than a word character *)

Section OutsideWords.

Variable up : jsstring -> jsstring.
Hypothesis Hup : UpperCasesAscii up.

Lemma keywordCharMatches_not_word (k x : code_unit) :
  isWordChar k = false -> k <> ASTERISK ->
  keywordCharMatches up k x = true -> isWordChar x = false.
Proof.
  intros Hk Hne Hm. unfold keywordCharMatches in Hm.
  destruct (N.eqb_spec k ASTERISK) as [E|_]; [contradiction|].
  apply N.eqb_eq in Hm.
  destruct (isWordChar x) eqn:Hx; [|reflexivity].
  pose proof (isWordChar_ascii x Hx) as Hx128.
  rewrite (Canonicalize_ascii up Hup x Hx128) in Hm.
  destruct (N.ltb_spec k 128) as [Hk128|Hk128].
  - rewrite (Canonicalize_ascii up Hup k Hk128) in Hm.
    rewrite <- (isWordChar_asciiUpper k), <- Hm, isWordChar_asciiUpper in Hk.
    congruence.
  - pose proof (Canonicalize_nonascii up k Hk128).
    pose proof (asciiUpper_ascii x Hx128). lia.
Qed.

Lemma lastOf_Some (pre : jsstring) (w : code_unit) :
  lastOf pre = Some w -> exists pre', pre = pre' ++ [w].
Proof.
  unfold lastOf. intros H. destruct (rev pre) as [|y l] eqn:E;
    [discriminate H|].
  injection H as ->. exists (rev l).
  apply (f_equal (@rev _)) in E. rewrite rev_involutive in E. exact E.
Qed.

End OutsideWords.

(** X5.  A keyword whose first character is neither a word character nor the
    wildcard is found only immediately behind a word character: never at the
    start of a word and never at the beginning of the corpus.  A positive
    count means that the corpus holds a word character followed by text that
    begins with the keyword. *)
Theorem keyword_outside_words_follows_a_word
    (toUpperCase : jsstring -> jsstring) (Hup : UpperCasesAscii toUpperCase)
    (k : code_unit) (keyword' : jsstring)
    (Hk : isWordChar k = false) (Hstar : k <> ASTERISK) :
  (forall prev rest,
      keywordOccurs toUpperCase (k :: keyword') prev rest = true ->
      IsWordChar prev = true /\ atWordStart prev rest = false)
  /\ (forall rest,
         keywordOccurs toUpperCase (k :: keyword') None rest = false)
  /\ (forall fullTextContent,
         (0 < keywordCount toUpperCase fullTextContent (k :: keyword'))%Z ->
         exists pre w post,
           fullTextContent = pre ++ w :: post
           /\ isWordChar w = true
           /\ beginsWith toUpperCase (k :: keyword') post = true).
Proof.
  assert (A : forall prev rest,
             keywordOccurs toUpperCase (k :: keyword') prev rest = true ->
             IsWordChar prev = true /\ atWordStart prev rest = false).
  { intros prev rest Hocc. unfold keywordOccurs in Hocc.
    apply andb_true_iff in Hocc as [Hb Hp].
    destruct rest as [|x rest]; [discriminate Hp|].
    cbn [beginsWith] in Hp. apply andb_true_iff in Hp as [Hm _].
    apply (keywordCharMatches_not_word toUpperCase Hup k x Hk Hstar) in Hm.
    unfold atWordBoundary in Hb. unfold atWordStart.
    cbn [hd_error IsWordChar] in *. rewrite Hm in *.
    destruct (IsWordChar prev); [now split | discriminate Hb]. }
  split; [exact A|]. split.
  - intros rest.
    destruct (keywordOccurs toUpperCase (k :: keyword') None rest) eqn:E;
      [|reflexivity].
    apply A in E as [E _]. discriminate E.
  - intros text Hpos.
    rewrite (keywordCount_countOccurrences toUpperCase Hup) in Hpos.
    assert (H1 : 1 <= countOccurrences toUpperCase (k :: keyword') None text 0)
      by lia.
    apply countOccurrences_positive in H1 as [pre [post [E Hocc]]].
    pose proof (A _ _ Hocc) as [Hw _].
    destruct (lastOf pre) as [w|] eqn:El; [|discriminate Hw].
    apply lastOf_Some in El as [pre' ->].
    exists pre', w, post. split; [now rewrite <- app_assoc in E|].
    split; [exact Hw|].
    unfold keywordOccurs in Hocc. now apply andb_true_iff in Hocc as [_ Hp].
Qed.

Lemma keyword_outside_words_follows_a_word_witness :
  UpperCasesAscii asciiTable
  /\ isWordChar 233%N = false
  /\ 233%N <> ASTERISK
  /\ keywordOccurs asciiTable (233%N :: js "lan") None
       (233%N :: js "lan vital") = false.
Proof.
  split; [intros c _; reflexivity|].
  split; [reflexivity|].
  split; [discriminate|].
  refine (proj1 (proj2 (keyword_outside_words_follows_a_word asciiTable
                          (fun c _ => eq_refl) 233%N (js "lan") eq_refl _))
            _).
  discriminate.
Defined.

(** ** The corpus in closed form *)








Section Corpus.

Variable body : jsstring -> option jsstring.
Variable url : jsstring -> jsstring -> option jsstring.
Variable zip : JSZip.
Variable items : Record jsstring.
Variable opf : jsstring.



End Corpus.

(** ** Counting chapter by chapter *)

Section Chapters.

Variable up : jsstring -> jsstring.
Hypothesis Hup : UpperCasesAscii up.

Lemma keywordCharMatches_space (k : code_unit) :
  k <> SPACE -> keywordCharMatches up k SPACE = false.
Proof.
  intros Hk. unfold keywordCharMatches.
  destruct (N.eqb_spec k ASTERISK) as [E|_]; [reflexivity|].
  apply N.eqb_neq. intros E.
  rewrite (Canonicalize_ascii up Hup SPACE) in E by (unfold SPACE; lia).
  destruct (N.ltb_spec k 128) as [Hk128|Hk128].
  - rewrite (Canonicalize_ascii up Hup k Hk128) in E.
    unfold asciiUpper, SPACE in *. simpl in E.
    destruct ((97 <=? k)%N && (k <=? 122)%N) eqn:B.
    + apply andb_true_iff in B as [B1 B2]. apply N.leb_le in B1. lia.
    + congruence.
  - pose proof (Canonicalize_nonascii up k Hk128) as H. rewrite <- E in H.
    vm_compute in H. now apply H.
Qed.

Lemma beginsWith_length (keyword : jsstring) :
  forall text : jsstring,
    beginsWith up keyword text = true ->
    List.length keyword <= List.length text.
Proof.
  induction keyword as [|k keyword IH]; intros [|x text] H; simpl in *;
    try lia; try discriminate.
  apply andb_true_iff in H as [_ H]. apply IH in H. lia.
Qed.

(** A keyword without a space does not reach over the space that ends a
    chapter. *)
Lemma beginsWith_before_space (keyword : jsstring) (after : jsstring) :
  ~ In SPACE keyword ->
  forall text : jsstring,
    beginsWith up keyword (text ++ SPACE :: after) = beginsWith up keyword text.
Proof.
  induction keyword as [|k keyword IH]; intros Hk text; [reflexivity|].
  assert (Hk0 : k <> SPACE) by (intros ->; apply Hk; now left).
  assert (Hk' : ~ In SPACE keyword) by (intros H; apply Hk; now right).
  destruct text as [|x text]; simpl.
  - now rewrite keywordCharMatches_space.
  - now rewrite IH.
Qed.

Lemma countOccurrences_prev (keyword : jsstring) (p1 p2 : option code_unit)
    (rest : jsstring) (skip : nat) :
  IsWordChar p1 = IsWordChar p2 ->
  countOccurrences up keyword p1 rest skip
  = countOccurrences up keyword p2 rest skip.
Proof.
  intros H. destruct rest as [|x rest], skip as [|k];
    cbn [countOccurrences]; unfold keywordOccurs, atWordBoundary;
    now rewrite ?H.
Qed.

Lemma countOccurrences_chapter (keyword after : jsstring) :
  ~ In SPACE keyword ->
  forall (text : jsstring) (prev : option code_unit) (skip : nat),
    skip <= List.length text ->
    countOccurrences up keyword prev (text ++ SPACE :: after) skip
    = countOccurrences up keyword prev text skip
      + countOccurrences up keyword None after 0.
Proof.
  intros Hk. induction text as [|x text IH]; intros prev skip Hskip.
  - simpl in Hskip. assert (skip = 0) by lia. subst skip.
    cbn [app countOccurrences]. unfold keywordOccurs.
    change (SPACE :: after) with ([] ++ SPACE :: after).
    rewrite (beginsWith_before_space keyword after Hk []).
    unfold atWordBoundary. cbn [app hd_error IsWordChar].
    assert (Hs : isWordChar SPACE = false) by reflexivity. rewrite Hs.
    rewrite !(fun rest skip =>
                countOccurrences_prev keyword (Some SPACE) None rest skip Hs).
    destruct (xorb (IsWordChar prev) false && beginsWith up keyword [])
      eqn:E; [|reflexivity].
    apply andb_true_iff in E as [_ E]. apply beginsWith_length in E.
    simpl in E. assert (L : List.length keyword = 0) by lia. now rewrite L.
  - simpl in Hskip. destruct skip as [|k]; cbn [app countOccurrences].
    + unfold keywordOccurs.
      change (x :: text ++ SPACE :: after)
        with ((x :: text) ++ SPACE :: after).
      rewrite (beginsWith_before_space keyword after Hk (x :: text)).
      unfold atWordBoundary. cbn [app hd_error].
      destruct (xorb (IsWordChar prev) (IsWordChar (Some x))
                && beginsWith up keyword (x :: text)) eqn:E.
      * apply andb_true_iff in E as [_ E]. apply beginsWith_length in E.
        simpl in E. rewrite IH by lia. reflexivity.
      * apply IH. lia.
    + apply IH. lia.
Qed.

Lemma countOccurrences_chapters (keyword : jsstring) (texts : list jsstring) :
  ~ In SPACE keyword ->
  countOccurrences up keyword None
    (flat_map (fun text => text ++ [SPACE]) texts) 0
  = fold_right Nat.add 0
      (List.map (fun text => countOccurrences up keyword None text 0) texts).
Proof.
  intros Hk. induction texts as [|text texts IH].
  - cbn [flat_map List.map fold_right countOccurrences].
    unfold keywordOccurs, atWordBoundary. reflexivity.
  - cbn [flat_map List.map fold_right]. rewrite <- app_assoc. cbn [app].
    rewrite (countOccurrences_chapter keyword _ Hk) by lia. now rewrite IH.
Qed.

Lemma keywordCount_nil (keyword : jsstring) : keywordCount up [] keyword = 0%Z.
Proof.
  rewrite (keywordCount_countOccurrences up Hup). reflexivity.
Qed.

Lemma keywordCount_chapters (keyword : jsstring) (texts : list jsstring) :
  ~ In SPACE keyword ->
  keywordCount up (flat_map (fun text => text ++ [SPACE]) texts) keyword
  = sumZ (List.map (fun text => keywordCount up text keyword) texts).
Proof.
  intros Hk. rewrite (keywordCount_countOccurrences up Hup).
  rewrite (countOccurrences_chapters keyword texts Hk).
  induction texts as [|text texts IH]; [reflexivity|].
  cbn [List.map fold_right sumZ]. rewrite Nat2Z.inj_add, IH.
  now rewrite (keywordCount_countOccurrences up Hup).
Qed.

Variable body : jsstring -> option jsstring.
Variable zip : JSZip.


Lemma keywordCount_chapterText (keyword p : jsstring) :
  ~ In SPACE keyword ->
  keywordCount up (chapterText body zip p) keyword
  = match zip_file zip p with
    | Some content => keywordCount up (getHtmlTextContent body content) keyword
    | None => 0%Z
    end.
Proof.
  intros Hk. unfold chapterText. destruct (zip_file zip p) as [content|].
  - pose proof (keywordCount_chapters keyword
                  [getHtmlTextContent body content] Hk) as H.
    cbn [flat_map List.map sumZ fold_right] in H.
    rewrite app_nil_r in H. rewrite H. lia.
  - apply keywordCount_nil.
Qed.

End Chapters.



(** A keyword with a space can match across two chapters. *)
Example keyword_with_space_spans_chapters :
  keywordCount asciiTable
    (flat_map (fun text => text ++ [SPACE])
       [js "She woke in another"; js "world entirely."])
    (js "another world") = 1%Z
  /\ sumZ (List.map (fun text => keywordCount asciiTable text
                                   (js "another world"))
             [js "She woke in another"; js "world entirely."]) = 0%Z.
Proof. split; vm_compute; reflexivity. Qed.

(** ** The entries a run reads *)


Section Entries.

Variable toUpperCase : jsstring -> jsstring.
Variable parseFromString : jsstring -> Document.
Variable bodyTextContent : jsstring -> option jsstring.
Variable URL_pathname : jsstring -> jsstring -> option jsstring.
Variable GENRE_KEYWORDS : Record (list jsstring).




End Entries.


(** ** An id declared more than once *)






(** ** The errors of a run *)



Section RunErrors.

Variable toUpperCase : jsstring -> jsstring.
Variable parseFromString : jsstring -> Document.
Variable bodyTextContent : jsstring -> option jsstring.
Variable URL_pathname : jsstring -> jsstring -> option jsstring.
Variable GENRE_KEYWORDS : Record (list jsstring).





End RunErrors.

(** ** Percent-encoded paths *)









(** ** The results of a category in closed form *)

Section ClosedForm.

Variable up : jsstring -> jsstring.
Variable text : jsstring.



End ClosedForm.



(** ** Sums of counts *)



(** The sum of the values of a record after an assignment. *)
Lemma sumZ_obj_set (o : Record Z) (k : jsstring) (v : Z) :
  sumZ (List.map snd (obj_set o k v))
  = (sumZ (List.map snd o)
     - match obj_get o k with
       | Some old => old
       | None => 0
       end
     + v)%Z.
Proof.
  induction o as [|[k' v'] o IH]; simpl; [unfold sumZ; simpl; lia|].
  destruct (str_eqb k' k); unfold sumZ in *; simpl in *; lia.
Qed.







Section ResultSums.

Variable up : jsstring -> jsstring.
Variable text : jsstring.

(** The recorded counts of a result sum to at most its score, and to at
    least 1. *)
Lemma sumZ_hits_le_score (keywords : list jsstring) :
  forall (hits : Record Z) (totalScore : Z),
    (forall k n, In (k, n) hits -> n = countOf up text k) ->
    (sumZ (List.map snd hits) <= totalScore)%Z ->
    (sumZ (List.map snd
             (fst (fold_left (scoreKeyword up text) keywords
                     (hits, totalScore))))
     <= snd (fold_left (scoreKeyword up text) keywords (hits, totalScore)))%Z.
Proof.
  induction keywords as [|k keywords IH]; intros h t Hh Hle; cbn [fold_left];
    [exact Hle|].
  rewrite scoreKeyword_step. apply IH.
  - destruct (0 <? countOf up text k)%Z; [|exact Hh].
    intros k' n Hin. apply In_obj_set in Hin as [[-> ->]|Hin];
      [reflexivity | now apply Hh].
  - pose proof (countOf_nonneg up text k) as Hc.
    destruct (0 <? countOf up text k)%Z; [|lia].
    rewrite sumZ_obj_set.
    destruct (obj_get h k) as [old|] eqn:E; [|lia].
    apply obj_get_In, Hh in E. lia.
Qed.

Lemma scoreKeywords_hits_le (keywords : list jsstring) :
  (sumZ (List.map snd (fst (scoreKeywords up text keywords)))
   <= snd (scoreKeywords up text keywords))%Z.
Proof.
  unfold scoreKeywords. apply sumZ_hits_le_score.
  - intros k n [].
  - unfold sumZ. simpl. lia.
Qed.

Lemma scoreTable_hits_sum (table : Record (list jsstring)) (r : GenreResult) :
  In r (scoreTable up text table) ->
  (1 <= sumZ (List.map snd (hits r)) <= score r)%Z.
Proof.
  intros H. apply scoreTable_In in H as [e [_ H]].
  pose proof (categoryResults_In up text e r H)
    as [_ [Hs [Hpos [_ [Hh Hget]]]]].
  split.
  - rewrite Hs in Hpos.
    apply sumZ_positive in Hpos as [c [Hin Hc]];
      [|intros x Hx; apply in_map_iff in Hx as [k [<- _]];
        apply countOf_nonneg].
    apply in_map_iff in Hin as [k [<- Hk]].
    assert (G : obj_get (hits r) k = Some (countOf up text k)).
    { rewrite Hget. apply existsb_str_eqb in Hk. rewrite Hk.
      now apply Z.ltb_lt in Hc as ->. }
    apply obj_get_In in G.
    assert (P : forall l : Record Z,
               (forall k n, In (k, n) l -> (0 < n)%Z) ->
               forall k n, In (k, n) l -> (n <= sumZ (List.map snd l))%Z).
    { induction l as [|[k1 n1] l IHl]; intros Hl k0 n0 Hin0;
        [destruct Hin0|]. destruct Hin0 as [E|Hin0].
      - injection E as E1 E2. subst k1 n1. unfold sumZ. simpl.
        assert (0 <= fold_right Z.add 0 (List.map snd l))%Z; [|lia].
        apply sumZ_nonneg. intros x Hx.
        apply in_map_iff in Hx as [[k2 n2] [<- Hx]].
        simpl. apply Z.lt_le_incl, (Hl k2). now right.
      - pose proof (Hl k1 n1 (or_introl eq_refl)).
        specialize (IHl (fun k n H => Hl k n (or_intror H)) k0 n0 Hin0).
        unfold sumZ in *. simpl. lia. }
    specialize (P (hits r) (fun k n H => proj2 (Hh k n H)) _ _ G). lia.
  - unfold categoryResults in H.
    destruct (scoreKeywords up text (snd e)) as [h t] eqn:E.
    destruct (0 <? t)%Z; [|contradiction].
    destruct H as [<-|[]]. cbn [hits score].
    pose proof (scoreKeywords_hits_le (snd e)) as L.
    rewrite E in L. exact L.
Qed.

End ResultSums.

(** ** What the component shows of an analysis *)

Lemma handleProcess_resume_Normal (engineMessage : Exception -> jsstring)
    (results : AnalysisResult) (s : App.State) :
  App.handleProcess_resume engineMessage (Normal results) s
  = App.mkState (App.file s) SUCCESS (js "Analysis complete!")
      (genres results) (tags results) (allHits results).
Proof. destruct results. reflexivity. Qed.

Lemma resume_Normal_results (engineMessage : Exception -> jsstring)
    (results : AnalysisResult) (s : App.State) :
  App.genreResults (App.handleProcess_resume engineMessage (Normal results) s)
  = genres results
  /\ App.tagResults
       (App.handleProcess_resume engineMessage (Normal results) s)
     = tags results
  /\ App.allHits (App.handleProcess_resume engineMessage (Normal results) s)
     = allHits results.
Proof. destruct results. repeat split. Qed.

Lemma analyzeText_genres (up : jsstring -> jsstring)
    (GENRE_KEYWORDS : Record (list jsstring)) (text : jsstring) :
  genres (analyzeText up GENRE_KEYWORDS text)
  = Array_sort byScoreDescending (scoreTable up text GENRE_KEYWORDS).
Proof. reflexivity. Qed.

Lemma analyzeText_tags (up : jsstring -> jsstring)
    (GENRE_KEYWORDS : Record (list jsstring)) (text : jsstring) :
  tags (analyzeText up GENRE_KEYWORDS text)
  = Array_sort byScoreDescending (scoreTable up text TAG_KEYWORDS).
Proof. reflexivity. Qed.

Lemma analyzeText_allHits (up : jsstring -> jsstring)
    (GENRE_KEYWORDS : Record (list jsstring)) (text : jsstring) :
  allHits (analyzeText up GENRE_KEYWORDS text)
  = allHitsOf (allHitsMapOf (scoreTable up text GENRE_KEYWORDS
                             ++ scoreTable up text TAG_KEYWORDS)).
Proof. reflexivity. Qed.

Lemma filter_all {A : Type} (f : A -> bool) (l : list A) :
  (forall x, In x l -> f x = true) -> filter f l = l.
Proof.
  induction l as [|a l IH]; intros H; simpl; [reflexivity|].
  rewrite (H a (or_introl eq_refl)). f_equal. apply IH.
  intros x Hx. apply H. now right.
Qed.

Lemma byScoreDescending_key :
  byScoreDescending = (fun a b => score b - score a)%Z.
Proof. reflexivity. Qed.


(** The head of a list sorted largest first is a largest element. *)
Lemma StronglySorted_head {A : Type} (key : A -> Z) (x : A) (l : list A) :
  StronglySorted (largestFirst key) (x :: l) ->
  forall y, In y (x :: l) -> (key y <= key x)%Z.
Proof.
  intros H y [<-|Hy]; [lia|].
  apply StronglySorted_inv in H as [_ H]. rewrite Forall_forall in H.
  now apply H.
Qed.

Lemma In_firstn {A : Type} (n : nat) (l : list A) (x : A) :
  In x (firstn n l) -> In x l.
Proof.
  intros H. rewrite <- (firstn_skipn n l). apply in_or_app. now left.
Qed.

Lemma In_skipn {A : Type} (n : nat) (l : list A) (x : A) :
  In x (skipn n l) -> In x l.
Proof.
  intros H. rewrite <- (firstn_skipn n l). apply in_or_app. now right.
Qed.

(** The first [n] elements of such a list are [n] largest elements. *)
Lemma StronglySorted_firstn {A : Type} (key : A -> Z) (n : nat) :
  forall l : list A,
    StronglySorted (largestFirst key) l ->
    StronglySorted (largestFirst key) (firstn n l)
    /\ forall a b, In a (firstn n l) -> In b (skipn n l) ->
                   (key b <= key a)%Z.
Proof.
  induction n as [|n IH]; intros l H.
  - simpl. split; [constructor | intros a b []].
  - destruct l as [|x l]; [simpl; split; [constructor | intros a b []]|].
    pose proof (StronglySorted_head key x l H) as Hx.
    apply StronglySorted_inv in H as [H Hall].
    destruct (IH l H) as [S1 S2]. cbn [firstn skipn]. split.
    + constructor; [assumption|]. rewrite Forall_forall in *.
      intros y Hy. apply Hall. now apply In_firstn in Hy.
    + intros a b [<-|Ha] Hb.
      * apply Hx. right. now apply In_skipn in Hb.
      * now apply S2.
Qed.

Section Shown.

Variable toUpperCase : jsstring -> jsstring.
Variable GENRE_KEYWORDS : Record (list jsstring).
Variable fullTextContent : jsstring.

Lemma sorted_table_positive (table : Record (list jsstring))
    (r : GenreResult) :
  In r (Array_sort byScoreDescending
          (scoreTable toUpperCase fullTextContent table)) ->
  (0 < score r)%Z /\ (1 <= sumZ (List.map snd (hits r)) <= score r)%Z
  /\ NoDup (List.map fst (hits r)).
Proof.
  intros H.
  apply (Permutation_in _ (Array_sort_Permutation byScoreDescending _)) in H.
  split; [now apply scoreTable_positive in H|].
  split; [now apply scoreTable_hits_sum in H|].
  now apply scoreTable_hits_NoDup in H.
Qed.

Lemma sorted_table_top (table : Record (list jsstring)) (r : GenreResult) :
  In r (Array_sort byScoreDescending
          (scoreTable toUpperCase fullTextContent table)) ->
  (score r
   <= App.topScore (Array_sort byScoreDescending
                      (scoreTable toUpperCase fullTextContent table)))%Z.
Proof.
  pose proof (Array_sort_StronglySorted score
                (scoreTable toUpperCase fullTextContent table)) as S.
  rewrite <- byScoreDescending_key in S.
  destruct (Array_sort byScoreDescending
              (scoreTable toUpperCase fullTextContent table)) as [|x l];
    [intros []|].
  intros H. now apply (StronglySorted_head score x l S).
Qed.

End Shown.




Lemma NoDup_map_filter {A B : Type} (g : A -> B) (f : A -> bool) (l : list A) :
  NoDup (List.map g l) -> NoDup (List.map g (filter f l)).
Proof.
  induction l as [|a l IH]; intros H; simpl; [constructor|].
  inversion H as [|? ? Hn Hl]; subst.
  destruct (f a); [|now apply IH]. simpl. constructor; [|now apply IH].
  intros Hin. apply Hn. apply in_map_iff in Hin as [x [E Hx]].
  apply filter_In in Hx as [Hx _]. apply in_map_iff. now exists x.
Qed.

Lemma NoDup_firstn {A : Type} (n : nat) (l : list A) :
  NoDup l -> NoDup (firstn n l).
Proof.
  intros H. rewrite <- (firstn_skipn n l) in H.
  now apply NoDup_app_remove_r in H.
Qed.

Lemma TAG_KEYWORDS_names : NoDup (List.map fst TAG_KEYWORDS).
Proof. apply distinctb_NoDup. vm_compute. reflexivity. Qed.



Section Display.

Variable toUpperCase : jsstring -> jsstring.
Variable GENRE_KEYWORDS : Record (list jsstring).
Variable fullTextContent : jsstring.
Variable engineMessage : Exception -> jsstring.
Variable s0 : App.State.


(** X12.  After a successful analysis the display filter [score > 0] removes
    nothing, and every listed result has a positive score that is at most
    the top score of its list.  So the width of every bar is above 0 and at
    most 100 percent, and the branch for a top score of 0 is not taken. *)
Theorem listed_results_fill_their_bars :
  let s := App.handleProcess_resume engineMessage
             (Normal (analyzeText toUpperCase GENRE_KEYWORDS fullTextContent))
             s0 in
  App.listed (App.genreResults s) = App.genreResults s
  /\ App.listed (App.tagResults s) = App.tagResults s
  /\ (forall r, In r (App.genreResults s) ->
                (0 < score r <= App.topGenreScore s)%Z)
  /\ (forall r, In r (App.tagResults s) ->
                (0 < score r <= App.topTagScore s)%Z).
Proof.
  intros s. subst s. rewrite handleProcess_resume_Normal.
  unfold App.topGenreScore, App.topTagScore, analyzeText.
  cbn [App.genreResults App.tagResults genres tags].
  assert (L : forall table,
             App.listed (Array_sort byScoreDescending
                           (scoreTable toUpperCase fullTextContent table))
             = Array_sort byScoreDescending
                 (scoreTable toUpperCase fullTextContent table)).
  { intros table. apply filter_all. intros r Hr. apply Z.ltb_lt.
    now apply sorted_table_positive in Hr. }
  split; [apply L|]. split; [apply L|].
  split; intros r Hr;
    (split; [now apply sorted_table_positive in Hr
            | now apply sorted_table_top]).
Qed.



End Display.

(** ** The keywords shown under a result *)

Lemma topKeywords_Permutation (result : GenreResult) :
  Permutation
    (Array_sort (fun a b => snd b - snd a)%Z (Object_entries (hits result)))
    (hits result).
Proof.
  rewrite Array_sort_Permutation. apply Object_entries_Permutation.
Qed.

Lemma topKeywords_NoDup (result : GenreResult) :
  NoDup (List.map fst (hits result)) ->
  NoDup (List.map fst (App.topKeywords result)).
Proof.
  intros Hn. unfold App.topKeywords. rewrite <- firstn_map.
  apply NoDup_firstn.
  apply (Permutation_NoDup
           (Permutation_sym
              (Permutation_map fst (topKeywords_Permutation result)))).
  exact Hn.
Qed.

(** X14.  The keywords shown under a result are the five with the largest
    counts, largest first, or all of them when there are fewer: no keyword
    left out has a larger count than one that is shown, and no keyword is
    shown twice. *)
Theorem top_keywords_are_largest (result : GenreResult) :
  List.length (App.topKeywords result)
  = Nat.min 5 (List.length (hits result))
  /\ StronglySorted (largestFirst snd) (App.topKeywords result)
  /\ (exists others,
         Permutation (App.topKeywords result ++ others) (hits result)
         /\ forall shown other,
             In shown (App.topKeywords result) -> In other others ->
             (snd other <= snd shown)%Z)
  /\ (NoDup (List.map fst (hits result)) ->
      NoDup (List.map fst (App.topKeywords result))).
Proof.
  unfold App.topKeywords.
  set (sorted := Array_sort (fun a b => snd b - snd a)%Z
                   (Object_entries (hits result))).
  assert (P : Permutation sorted (hits result))
    by apply topKeywords_Permutation.
  assert (S : StronglySorted (largestFirst snd) sorted)
    by apply (Array_sort_StronglySorted snd).
  destruct (StronglySorted_firstn snd 5 sorted S) as [S1 S2].
  split.
  - rewrite length_firstn. now rewrite (Permutation_length P).
  - split; [exact S1|]. split.
    + exists (skipn 5 sorted). split; [|exact S2].
      now rewrite firstn_skipn.
    + apply topKeywords_NoDup.
Qed.

Section Totals.

Variable toUpperCase : jsstring -> jsstring.
Variable GENRE_KEYWORDS : Record (list jsstring).
Variable fullTextContent : jsstring.
Variable engineMessage : Exception -> jsstring.
Variable s0 : App.State.



(** X17.  The keys of the rendered lists are distinct: no tag is returned
    twice, no genre either when the names of the genre table are distinct,
    and no keyword occurs twice among the aggregate hits or among the
    keywords shown under a result. *)
Theorem result_lists_repeat_no_name :
  let s := App.handleProcess_resume engineMessage
             (Normal (analyzeText toUpperCase GENRE_KEYWORDS fullTextContent))
             s0 in
  (NoDup (List.map fst GENRE_KEYWORDS) ->
   NoDup (List.map genre (App.genreResults s)))
  /\ NoDup (List.map tag (App.tagResults s))
  /\ NoDup (List.map keyword (App.allHits s))
  /\ (forall result,
         In result (App.genreResults s) \/ In result (App.tagResults s) ->
         NoDup (List.map fst (App.topKeywords result))).
Proof.
  intros s.
  destruct (resume_Normal_results engineMessage
              (analyzeText toUpperCase GENRE_KEYWORDS fullTextContent) s0)
    as [Eg [Et Ea]].
  fold s in Eg, Et, Ea. clearbody s.
  rewrite Eg, Et, Ea. clear Eg Et Ea.
  rewrite analyzeText_genres, analyzeText_tags, analyzeText_allHits.
  assert (Names : forall table,
             NoDup (List.map fst table) ->
             NoDup (List.map genre
                      (Array_sort byScoreDescending
                         (scoreTable toUpperCase fullTextContent table)))).
  { intros table Hn.
    apply (Permutation_NoDup
             (Permutation_sym
                (Permutation_map genre
                   (Array_sort_Permutation byScoreDescending _)))).
    rewrite scoreTable_names. apply NoDup_map_filter.
    now apply Object_entries_NoDup. }
  split; [apply Names|]. split; [apply Names, TAG_KEYWORDS_names|]. split.
  - apply (Permutation_NoDup (Permutation_sym (allHitsOf_keys _))).
    apply fold_addHits_NoDup. constructor.
  - intros r Hr. apply topKeywords_NoDup.
    destruct Hr as [Hr|Hr];
      apply sorted_table_positive in Hr; destruct Hr as [_ [_ Hr]]; exact Hr.
Qed.

End Totals.

(** ** Sessions *)

Lemma handleFileSelect_state (file : File) (s : App.State) :
  App.handleFileSelect file s = App.mkState (Some file) IDLE [] [] [] [].
Proof. reflexivity. Qed.

Lemma handleProcess_begin_state (file : File) (s : App.State) :
  App.file s = Some file ->
  App.handleProcess_begin s
  = App.mkState (Some file) PROCESSING
      (js "Analyzing ePub... this may take a moment.") [] [] [].
Proof.
  intros H. unfold App.handleProcess_begin. rewrite H.
  destruct s. cbn in H. now subst.
Qed.

Lemma handleProcess_resume_Throw (engineMessage : Exception -> jsstring)
    (error : Exception) (s : App.State) :
  App.handleProcess_resume engineMessage (Throw error) s
  = App.mkState (App.file s) ERROR
      (js "Error: " ++ App.message engineMessage error)
      (App.genreResults s) (App.tagResults s) (App.allHits s).
Proof. destruct error; reflexivity. Qed.

Lemma handleProcess_resume_results (engineMessage : Exception -> jsstring)
    (results : AnalysisResult) (s : App.State) :
  App.handleProcess_resume engineMessage (Normal results) s
  = App.mkState (App.file s) SUCCESS (js "Analysis complete!")
      (genres results) (tags results) (allHits results).
Proof. destruct results. reflexivity. Qed.

(** What a handler of [FileUpload] leaves of the state: the state itself, or
    the reset state with the first file of the list. *)
Lemma afterEffects_cases (handler : list File -> list FileUpload.Effect)
    (files : list File) (s : App.State) :
  handler = FileUpload.handleFileChange \/ handler = FileUpload.handleDrop ->
  afterEffects (handler files) s = s
  \/ exists file more,
      files = file :: more
      /\ afterEffects (handler files) s
         = App.mkState (Some file) IDLE [] [] [] [].
Proof.
  intros [-> | ->]; destruct files as [|file more]; try (now left).
  - right. now exists file, more.
  - unfold FileUpload.handleDrop.
    destruct (str_eqb (type file) (js "application/epub+zip"));
      [right; now exists file, more | now left].
Qed.

(** The facts about a state of a session that is not a success. *)
Ltac state_facts :=
  cbn [App.file App.processingState App.statusMessage App.genreResults
         App.tagResults App.allHits];
  split; [first [discriminate | now intros _ | intros E; contradiction]|];
  split; [first [now intros _ | intros [E|E]; discriminate E]|];
  split; [split; first [reflexivity | discriminate]|];
  split; [discriminate|];
  split; [discriminate | discriminate].

Section SessionInvariants.

Variable toUpperCase : jsstring -> jsstring.
Variable parseFromString : jsstring -> Document.
Variable bodyTextContent : jsstring -> option jsstring.
Variable URL_pathname : jsstring -> jsstring -> option jsstring.
Variable GENRE_KEYWORDS : Record (list jsstring).
Variable loadAsync : File -> Completion JSZip.
Variable engineMessage : Exception -> jsstring.

Lemma analyzeEpub_Normal (zip : JSZip) (results : AnalysisResult) :
  analyzeEpub toUpperCase parseFromString bodyTextContent URL_pathname
    GENRE_KEYWORDS zip = Normal results ->
  exists fullTextContent,
    results = analyzeText toUpperCase GENRE_KEYWORDS fullTextContent
    /\ forallb isWhiteSpace fullTextContent = false.
Proof.
  unfold analyzeEpub, fullTextContentOf.
  destruct (opfPathOf parseFromString zip) as [p|e]; [|discriminate].
  destruct (zip_file zip p) as [xml|]; [|discriminate].
  destruct (spineLoop bodyTextContent URL_pathname zip
              (manifestItemsOf (parseFromString xml)) p
              (spineRefsOf (parseFromString xml)) [] []) as [text|e];
    [|discriminate].
  rewrite String_trim_empty.
  destruct (forallb isWhiteSpace text) eqn:E; [discriminate|].
  intros [= <-]. now exists text.
Qed.

Lemma analyze_Normal (file : File) (results : AnalysisResult) :
  analyze toUpperCase parseFromString bodyTextContent URL_pathname
    GENRE_KEYWORDS loadAsync file = Normal results ->
  exists fullTextContent,
    results = analyzeText toUpperCase GENRE_KEYWORDS fullTextContent
    /\ forallb isWhiteSpace fullTextContent = false.
Proof.
  unfold analyze. destruct (loadAsync file) as [zip|e]; [|discriminate].
  apply analyzeEpub_Normal.
Qed.

(** X18.  What holds in every state of a session, whatever the order in which
    files are chosen and analyses are started and settle.  Without a file the
    component is in its initial state.  In the states IDLE and PROCESSING it
    holds no results.  The status message is empty exactly in the state
    IDLE.  In the state PROCESSING an analysis is pending.  In the state
    SUCCESS the message is "Analysis complete!" and the results are those of
    the analysis of the corpus of a loaded archive.  The notice "Please
    select an ePub file to analyze." is never the status message: the button
    is disabled while there is no file. *)
Theorem session_states (s : App.State) (pending : list File) :
  reachable toUpperCase parseFromString bodyTextContent URL_pathname
    GENRE_KEYWORDS loadAsync engineMessage s pending ->
  (App.file s = None -> s = App.initial /\ pending = [])
  /\ (App.processingState s = IDLE \/ App.processingState s = PROCESSING ->
      App.genreResults s = [] /\ App.tagResults s = [] /\ App.allHits s = [])
  /\ (App.statusMessage s = [] <-> App.processingState s = IDLE)
  /\ (App.processingState s = PROCESSING -> pending <> [])
  /\ (App.processingState s = SUCCESS ->
      App.statusMessage s = js "Analysis complete!"
      /\ exists file results fullTextContent,
          analyze toUpperCase parseFromString bodyTextContent URL_pathname
            GENRE_KEYWORDS loadAsync file = Normal results
          /\ results
             = analyzeText toUpperCase GENRE_KEYWORDS fullTextContent
          /\ forallb isWhiteSpace fullTextContent = false
          /\ App.genreResults s = genres results
          /\ App.tagResults s = tags results
          /\ App.allHits s = allHits results)
  /\ App.statusMessage s <> js "Please select an ePub file to analyze.".
Proof.
  intros H.
  induction H as [|s pending files H IH|s pending files H IH
                  |s pending file H IH Hb Hf|s before after file H IH].
  - unfold App.initial. state_facts.
  - destruct (afterEffects_cases FileUpload.handleFileChange files s
                (or_introl eq_refl)) as [->|[f [more [_ ->]]]];
      [exact IH | state_facts].
  - destruct (afterEffects_cases FileUpload.handleDrop files s
                (or_intror eq_refl)) as [->|[f [more [_ ->]]]];
      [exact IH | state_facts].
  - rewrite (handleProcess_begin_state file s Hf). state_facts.
  - destruct IH as [I1 _].
    assert (Hfile : App.file s <> None).
    { intros E. destruct (I1 E) as [_ E']. now destruct before. }
    destruct (analyze toUpperCase parseFromString bodyTextContent URL_pathname
                GENRE_KEYWORDS loadAsync file) as [results|e] eqn:Ea.
    + rewrite handleProcess_resume_results.
      cbn [App.file App.processingState App.statusMessage App.genreResults
             App.tagResults App.allHits].
      split; [intros E; contradiction|].
      split; [intros [E|E]; discriminate E|].
      split; [split; discriminate|]. split; [discriminate|].
      split; [|discriminate]. intros _. split; [reflexivity|].
      destruct (analyze_Normal file results Ea) as [text [Et Hw]].
      exists file, results, text. repeat split; assumption.
    + rewrite handleProcess_resume_Throw. state_facts.
Qed.

(** X19.  The results on display need not be those of the file on display.
    An analysis that settles writes its results whatever file is selected by
    then: when the analysis of a file succeeds and another file is chosen
    while it runs, the component ends in the state SUCCESS with the second
    file and the results of the first. *)
Theorem results_can_outlive_their_file (first second : File)
    (results : AnalysisResult) :
  analyze toUpperCase parseFromString bodyTextContent URL_pathname
    GENRE_KEYWORDS loadAsync first = Normal results ->
  reachable toUpperCase parseFromString bodyTextContent URL_pathname
    GENRE_KEYWORDS loadAsync engineMessage
    (App.mkState (Some second) SUCCESS (js "Analysis complete!")
       (genres results) (tags results) (allHits results))
    [].
Proof.
  intros Ha.
  pose proof (reach_change toUpperCase parseFromString bodyTextContent
                URL_pathname GENRE_KEYWORDS loadAsync engineMessage
                App.initial [] [first]
                (reach_initial toUpperCase parseFromString bodyTextContent
                   URL_pathname GENRE_KEYWORDS loadAsync engineMessage))
    as R1.
  change (afterEffects (FileUpload.handleFileChange [first]) App.initial)
    with (App.mkState (Some first) IDLE [] [] [] []) in R1.
  pose proof (reach_click toUpperCase parseFromString bodyTextContent
                URL_pathname GENRE_KEYWORDS loadAsync engineMessage
                _ _ first R1 eq_refl eq_refl) as R2.
  pose proof (reach_change toUpperCase parseFromString bodyTextContent
                URL_pathname GENRE_KEYWORDS loadAsync engineMessage
                _ _ [second] R2) as R3.
  change (afterEffects (FileUpload.handleFileChange [second])
            (App.handleProcess_begin
               (App.mkState (Some first) IDLE [] [] [] [])))
    with (App.mkState (Some second) IDLE [] [] [] []) in R3.
  pose proof (reach_settle toUpperCase parseFromString bodyTextContent
                URL_pathname GENRE_KEYWORDS loadAsync engineMessage
                _ [] [] first R3) as R4.
  rewrite Ha, handleProcess_resume_results in R4. exact R4.
Qed.

End SessionInvariants.

(** A file is chosen and the button is pressed: the analysis is pending and
    the component holds no results. *)
Lemma session_states_witness :
  reachable asciiTable exampleParser exampleBodyText examplePathname []
    exampleLoader (fun _ => [])
    (App.handleProcess_begin
       (afterEffects (FileUpload.handleFileChange [wizardFile]) App.initial))
    [wizardFile]
  /\ App.processingState
       (App.handleProcess_begin
          (afterEffects (FileUpload.handleFileChange [wizardFile])
             App.initial))
     = PROCESSING
  /\ App.genreResults
       (App.handleProcess_begin
          (afterEffects (FileUpload.handleFileChange [wizardFile])
             App.initial))
     = [].
Proof.
  assert (R : reachable asciiTable exampleParser exampleBodyText
                examplePathname [] exampleLoader (fun _ => [])
                (App.handleProcess_begin
                   (afterEffects (FileUpload.handleFileChange [wizardFile])
                      App.initial))
                [wizardFile]).
  { apply (reach_click asciiTable exampleParser exampleBodyText
             examplePathname [] exampleLoader (fun _ => [])
             (afterEffects (FileUpload.handleFileChange [wizardFile])
                App.initial) [] wizardFile).
    - apply reach_change. apply reach_initial.
    - reflexivity.
    - reflexivity. }
  split; [exact R|]. split; [reflexivity|].
  apply (proj1 (proj2 (session_states asciiTable exampleParser
                         exampleBodyText examplePathname [] exampleLoader
                         (fun _ => []) _ _ R))).
  right. reflexivity.
Defined.

(** The small book is being analysed when another file is chosen. *)
Lemma results_can_outlive_their_file_witness :
  analyze asciiTable exampleParser exampleBodyText examplePathname
    [(js "Fantasy", [js "magic"; js "spell"])] exampleLoader wizardFile
  = Normal (mkAnalysisResult
              [mkGenreResult (js "Fantasy") 1 [(js "spell", 1%Z)]]
              [mkGenreResult (js "Magic System") 1 [(js "spell", 1%Z)]]
              [mkKeywordHit (js "spell") 2])
  /\ reachable asciiTable exampleParser exampleBodyText examplePathname
       [(js "Fantasy", [js "magic"; js "spell"])] exampleLoader (fun _ => [])
       (App.mkState (Some (mkFile (js "other.epub") [] [])) SUCCESS
          (js "Analysis complete!")
          [mkGenreResult (js "Fantasy") 1 [(js "spell", 1%Z)]]
          [mkGenreResult (js "Magic System") 1 [(js "spell", 1%Z)]]
          [mkKeywordHit (js "spell") 2])
       [].
Proof.
  assert (Ha : analyze asciiTable exampleParser exampleBodyText
                 examplePathname [(js "Fantasy", [js "magic"; js "spell"])]
                 exampleLoader wizardFile
               = Normal (mkAnalysisResult
                           [mkGenreResult (js "Fantasy") 1
                              [(js "spell", 1%Z)]]
                           [mkGenreResult (js "Magic System") 1
                              [(js "spell", 1%Z)]]
                           [mkKeywordHit (js "spell") 2]))
    by (vm_compute; reflexivity).
  split; [exact Ha|].
  apply (results_can_outlive_their_file asciiTable exampleParser
           exampleBodyText examplePathname
           [(js "Fantasy", [js "magic"; js "spell"])] exampleLoader
           (fun _ => []) wizardFile (mkFile (js "other.epub") [] [])
           _ Ha).
Defined.
